(** * cland: notification file parser and store

    A shallow embedding of the Go packages [exchange] (the notification
    file parser) and [db] (the SQL store), with the properties of the
    ingestion pipeline proved about them.

    Go strings are byte sequences; they are modelled by [string], whose
    characters ([ascii]) are the bytes.  A Go [map[string]string] is a
    [gmap string string]; a nil map is [None]. *)

From Stdlib Require Import ZArith Ascii String List Bool Lia.
From stdpp Require Import base option list gmap strings fin_maps.

Open Scope string_scope.

(** ** The part of Go's [strings] package used by the parser *)

Module Strings.

(** [strings.HasPrefix(s, prefix)] *)
Definition HasPrefix (s pre : string) : bool := String.prefix pre s.

(** [strings.Join(elems, sep)] *)
Fixpoint Join (elems : list string) (sep : string) : string :=
  match elems with
  | [] => ""
  | [x] => x
  | x :: rest => x ++ sep ++ Join rest sep
  end.

(** [strings.Cut(s, sep)] for a one-byte separator: the text before and
    after the first occurrence of [sep], or [None] when [sep] is absent. *)
Fixpoint Cut (s : string) (sep : ascii) : option (string * string) :=
  match s with
  | EmptyString => None
  | String c rest =>
      if Ascii.eqb c sep then Some ("", rest)
      else match Cut rest sep with
           | Some (before, after) => Some (String c before, after)
           | None => None
           end
  end.

(** [strings.SplitN(s, sep, n)] for a one-byte separator and [n >= 0]:
    at most [n] substrings, the last one being the unsplit remainder;
    [n = 0] gives no substring at all. *)
Fixpoint SplitN (s : string) (sep : ascii) (n : nat) : list string :=
  match n with
  | O => []
  | S O => [s]
  | S n' =>
      match Cut s sep with
      | None => [s]
      | Some (before, after) => before :: SplitN after sep n'
      end
  end.

(** [strings.Split(s, sep)] for a one-byte separator: all the substrings
    between the separators; a string without separator, the empty string
    included, gives itself alone. *)
Fixpoint Split (s : string) (sep : ascii) : list string :=
  match s with
  | EmptyString => [""]
  | String c rest =>
      if Ascii.eqb c sep then "" :: Split rest sep
      else match Split rest sep with
           | first :: others => String c first :: others
           | [] => [String c ""]
           end
  end.

(** The table [asciiSpace] of strings.go: tab, line feed, vertical tab,
    form feed, carriage return, space. *)
Definition asciiSpace (c : ascii) : bool :=
  let n := nat_of_ascii c in
  (n =? 9)%nat || (n =? 10)%nat || (n =? 11)%nat || (n =? 12)%nat
  || (n =? 13)%nat || (n =? 32)%nat.

(** [unicode.IsSpace] on the runes that take two bytes in UTF-8:
    U+0085 (C2 85) and U+00A0 (C2 A0). *)
Definition isSpace2 (b1 b2 : ascii) : bool :=
  let n1 := nat_of_ascii b1 in
  let n2 := nat_of_ascii b2 in
  (n1 =? 194)%nat && ((n2 =? 133)%nat || (n2 =? 160)%nat).

(** [unicode.IsSpace] on the runes that take three bytes in UTF-8:
    U+1680 (E1 9A 80), U+2000..U+200A (E2 80 80..8A), U+2028, U+2029
    (E2 80 A8, E2 80 A9), U+202F (E2 80 AF), U+205F (E2 81 9F) and
    U+3000 (E3 80 80). *)
Definition isSpace3 (b1 b2 b3 : ascii) : bool :=
  let n1 := nat_of_ascii b1 in
  let n2 := nat_of_ascii b2 in
  let n3 := nat_of_ascii b3 in
  ((n1 =? 225)%nat && (n2 =? 154)%nat && (n3 =? 128)%nat)
  || ((n1 =? 226)%nat && (n2 =? 128)%nat
      && (((128 <=? n3)%nat && (n3 <=? 138)%nat)
          || (n3 =? 168)%nat || (n3 =? 169)%nat || (n3 =? 175)%nat))
  || ((n1 =? 226)%nat && (n2 =? 129)%nat && (n3 =? 159)%nat)
  || ((n1 =? 227)%nat && (n2 =? 128)%nat && (n3 =? 128)%nat).

(** Removal of the leading white-space runes.  The two predicates say
    which two-byte and three-byte sequences are white space, so that the
    same loop serves the reversed string. *)
Fixpoint trimLeading (p2 : ascii -> ascii -> bool)
    (p3 : ascii -> ascii -> ascii -> bool) (s : string) : string :=
  match s with
  | EmptyString => s
  | String c1 r1 =>
      if asciiSpace c1 then trimLeading p2 p3 r1
      else
        match r1 with
        | EmptyString => s
        | String c2 r2 =>
            if p2 c1 c2 then trimLeading p2 p3 r2
            else
              match r2 with
              | EmptyString => s
              | String c3 r3 =>
                  if p3 c1 c2 c3 then trimLeading p2 p3 r3 else s
              end
        end
  end.

(** Whether the string starts with a white-space rune, as the loop of
    [trimLeading] tests it. *)
Definition leadsSpace (p2 : ascii -> ascii -> bool)
    (p3 : ascii -> ascii -> ascii -> bool) (s : string) : bool :=
  match s with
  | EmptyString => false
  | String c1 r1 =>
      asciiSpace c1
      || match r1 with
         | EmptyString => false
         | String c2 r2 =>
             p2 c1 c2
             || match r2 with
                | EmptyString => false
                | String c3 _ => p3 c1 c2 c3
                end
         end
  end.

Definition revString (s : string) : string :=
  string_of_list_ascii (List.rev (list_ascii_of_string s)).

(** [strings.TrimLeftFunc(s, unicode.IsSpace)] *)
Definition TrimLeftSpace (s : string) : string :=
  trimLeading isSpace2 isSpace3 s.

(** [strings.TrimRightFunc(s, unicode.IsSpace)]: the last rune is decoded
    from the nearest rune start, which for a white-space rune is the
    suffix match done here on the reversed bytes. *)
Definition TrimRightSpace (s : string) : string :=
  revString
    (trimLeading (fun a b => isSpace2 b a) (fun a b c => isSpace3 c b a)
       (revString s)).

(** [strings.TrimSpace(s)] *)
Definition TrimSpace (s : string) : string :=
  TrimRightSpace (TrimLeftSpace s).

End Strings.

(** ** Package [exchange]: the notification file parser *)

Module exchange.
Import Strings.

Record Notification := mkNotification {
  Topic : string;
  Metadata : option (gmap string string);
  Message : string
}.

(** The two error types of the package; [File] is left empty by [parse]. *)
Inductive error :=
| NoTopicError (File : string)
| EmptyMessageError (File : string).

Inductive result (A : Type) :=
| Ok (a : A)
| Err (e : error).
Arguments Ok {A} a.
Arguments Err {A} e.

Definition isRule (line : string) : bool := HasPrefix line "---".

Definition isComment (line : string) : bool := HasPrefix line "--".

Definition cleanHead (head : list string) : list string :=
  List.filter (fun line => negb (String.eqb line "" || isComment line)) head.

(** One round of the loop of [parseMetadata]. *)
Definition metadataStep (metadata : gmap string string) (line : string)
    : gmap string string :=
  let parts := SplitN line ":" 2 in
  if (length parts <? 2)%nat
     || String.eqb (nth 0 parts "") ""
     || String.eqb (nth 1 parts "") ""
  then metadata
  else
    let key := TrimSpace (nth 0 parts "") in
    let value := TrimSpace (nth 1 parts "") in
    <[key := value]> metadata.

Definition parseMetadata (lines : list string) : gmap string string :=
  fold_left metadataStep lines ∅.

(** The first loop of [parse]: [head] and [message] are the two slices
    being appended to, [insideHead] the flag. *)
Fixpoint splitLines (lines head message : list string) (insideHead : bool)
    : list string * list string :=
  match lines with
  | [] => (head, message)
  | line :: rest =>
      if isRule line then splitLines rest head message false
      else if insideHead then splitLines rest (head ++ [line]) message insideHead
      else splitLines rest head (message ++ [line]) insideHead
  end.

(** The string "\n". *)
Definition newline : string := String (ascii_of_nat 10) "".

Definition parse (lines : list string) : result Notification :=
  let '(head, message) := splitLines lines [] [] true in
  let head := cleanHead head in
  if (length head <? 1)%nat then Err (NoTopicError "")
  else if (length message <? 1)%nat then Err (EmptyMessageError "")
  else Ok {| Topic := nth 0 head "";
             Metadata := Some (parseMetadata (tl head));
             Message := Join message newline |}.

Definition notRule (line : string) : bool := negb (isRule line).

(** The slices [head] and [message] as the first loop of [parse] leaves
    them, before [cleanHead]. *)
Definition headerOf (lines : list string) : list string :=
  fst (splitLines lines [] [] true).

Definition messageOf (lines : list string) : list string :=
  snd (splitLines lines [] [] true).

(** What one line adds to the map in [parseMetadata]: the guard and the
    two trimmed parts of [metadataStep]. *)
Definition pairOf (line : string) : option (string * string) :=
  let parts := SplitN line ":" 2 in
  if (length parts <? 2)%nat
     || String.eqb (nth 0 parts "") ""
     || String.eqb (nth 1 parts "") ""
  then None
  else Some (TrimSpace (nth 0 parts ""), TrimSpace (nth 1 parts "")).

(** *** Reading a file ([Process.ReadFile]) *)

Record Process := mkProcess {
  Filepath : string;
  Notif : option Notification
}.

(** What one call of os.ReadFile gives: an error, or the bytes read (the
    bytes that come with an error are never looked at). *)
Inductive readOutcome :=
| ReadFailed (err : string)
| ReadData (content : string).

(** The errors of [ReadFile]: the error of the last read, the error made
    for a file that stayed empty, and the two errors of [parse]. *)
Inductive fileError :=
| ErrRead (err : string)
| ErrEmptyContent
| ErrParse (e : error).

Definition READ_FILE_MAX_ATTEMPTS : nat := 5.

(** The retry loop: [attempt] is the loop counter, [left] the number of
    rounds before it passes READ_FILE_MAX_ATTEMPTS, [last] the variables
    [content] and [err] as they stand.  The pause between two rounds is
    not modelled. *)
Fixpoint readAttempts (read : nat -> readOutcome) (attempt left : nat)
    (last : readOutcome) : readOutcome :=
  match left with
  | O => last
  | S left' =>
      match read attempt with
      | ReadFailed err =>
          readAttempts read (S attempt) left' (ReadFailed err)
      | ReadData content =>
          if (String.length content =? 0)%nat
          then readAttempts read (S attempt) left' (ReadData content)
          else ReadData content
      end
  end.

(** [read path attempt] is what os.ReadFile gives for [path] at the
    given round.  The result is the error returned (None for nil) and
    the process, whose [Notif] is set on success only. *)
Definition ReadFile (read : string -> nat -> readOutcome) (p : Process)
    : option fileError * Process :=
  match readAttempts (read (Filepath p)) 1 READ_FILE_MAX_ATTEMPTS
          (ReadData "") with
  | ReadFailed err => (Some (ErrRead err), p)
  | ReadData content =>
      if (String.length content =? 0)%nat then (Some ErrEmptyContent, p)
      else
        match parse (Split content (ascii_of_nat 10)) with
        | Err e => (Some (ErrParse e), p)
        | Ok notif => (None, mkProcess (Filepath p) (Some notif))
        end
  end.

(** A read after which the loop of [ReadFile] goes round again: an
    error, or no byte. *)
Definition retried (o : readOutcome) : Prop :=
  match o with
  | ReadFailed _ => True
  | ReadData content => content = ""
  end.

(** Two files as os.ReadFile may see them: one that cannot be read, then
    is empty, then holds three lines; one that stays busy and is empty at
    the fifth read. *)
Definition late_file (path : string) (attempt : nat) : readOutcome :=
  match attempt with
  | 1 => ReadFailed "no such file"
  | 2 => ReadData ""
  | _ => ReadData (Join ["t"; "---"; "m"] newline)
  end%nat.

Definition busy_file (path : string) (attempt : nat) : readOutcome :=
  match attempt with
  | 5 => ReadData ""
  | _ => ReadFailed "busy"
  end%nat.

(** The process after [ReadFile], as its error says. *)
Definition afterRead (p : Process) (lines : list string)
    : option fileError * Process :=
  match parse lines with
  | Err e => (Some (ErrParse e), p)
  | Ok notif => (None, mkProcess (Filepath p) (Some notif))
  end.

End exchange.

(** ** Package [db]: the SQL store *)

Module db.

Definition MaxTopicNameLength : nat := 255.

Inductive NotificationStatus :=
| NotificationStatusInput
| NotificationStatusSent
| NotificationStatusError.

Definition status_eqb (a b : NotificationStatus) : bool :=
  match a, b with
  | NotificationStatusInput, NotificationStatusInput
  | NotificationStatusSent, NotificationStatusSent
  | NotificationStatusError, NotificationStatusError => true
  | _, _ => false
  end.

(** The sentinel errors of the package, the two failures of the SQL
    layer the code tells apart ([sql.ErrNoRows] and everything else), and
    the [%w] wrapping of [fmt.Errorf]. *)
Inductive error :=
| ErrEmptyDeviceID
| ErrEmptyPublicKey
| ErrEmptyTopic
| ErrTopicTooLong
| ErrEmptyMessage
| ErrConstraint
| ErrDriver
| Wrap (msg : string) (cause : error).

Inductive result (A : Type) :=
| Ok (a : A)
| Err (e : error).
Arguments Ok {A} a.
Arguments Err {A} e.

(** *** The schema (CREATE_ALL_TABLES) *)

Record device := mkDevice {
  device_id : string;
  public_key : string;
  registration_date : Z
}.

Record topic := mkTopic {
  topic_id : Z;
  topic_name : string;
  description : string;
  creation_date : Z
}.

(** The document written to the [metadata] column: [json.Marshal] of a
    [map[string]string] is [null] for the nil map and an object of string
    members otherwise.  The document is kept as a value, not as text.
    [json.Marshal] has no error on such a map, so the error branch that
    follows it in [InsertNotification] is never taken. *)
Inductive json :=
| JSONNull
| JSONObject (members : gmap string string).

Definition Marshal (m : option (gmap string string)) : json :=
  match m with
  | None => JSONNull
  | Some members => JSONObject members
  end.

Record notification := mkNotificationRow {
  notification_id : Z;
  notification_topic : Z;
  timestamp : Z;
  message : string;
  metadata : json;
  status : NotificationStatus
}.

(** The three tables, rows in insertion order, and the AUTOINCREMENT
    counters of the two tables that have one. *)
Record store := mkStore {
  devices : list device;
  topics : list topic;
  topics_seq : Z;
  notifications : list notification;
  notifications_seq : Z
}.

Definition empty_store : store := mkStore [] [] 0 [] 0.

(** *** The SQL statements of the package, on a store *)

(** SELECT topic_id FROM topics WHERE topic_name = ? *)
Definition select_topic_id (s : store) (name : string) : option Z :=
  topic_id <$> List.find (fun t => String.eqb (topic_name t) name) (topics s).

(** INSERT INTO topics (topic_name, description) VALUES (?, ?), with the
    UNIQUE constraint on topic_name; gives the new store and the row id. *)
Definition insert_topic (s : store) (now : Z) (name descr : string)
    : option (store * Z) :=
  if existsb (fun t => String.eqb (topic_name t) name) (topics s) then None
  else
    let id := (topics_seq s + 1)%Z in
    Some (mkStore (devices s) (topics s ++ [mkTopic id name descr now]) id
            (notifications s) (notifications_seq s), id).

(** INSERT INTO devices (device_id, public_key) VALUES (?, ?), with the
    PRIMARY KEY constraint on device_id. *)
Definition insert_device (s : store) (now : Z) (id key : string)
    : option store :=
  if existsb (fun d => String.eqb (device_id d) id) (devices s) then None
  else
    Some (mkStore (devices s ++ [mkDevice id key now]) (topics s)
            (topics_seq s) (notifications s) (notifications_seq s)).

(** INSERT INTO notifications (topic_id, message, metadata) VALUES (?, ?, ?);
    the status column takes its default, INPUT. *)
Definition insert_notification (s : store) (now : Z) (topicID : Z)
    (msg : string) (md : json) : store * Z :=
  let id := (notifications_seq s + 1)%Z in
  (mkStore (devices s) (topics s) (topics_seq s)
     (notifications s
      ++ [mkNotificationRow id topicID now msg md NotificationStatusInput])
     id, id).

Definition matches (id : Z) (old : NotificationStatus) (n : notification)
    : bool :=
  (notification_id n =? id)%Z && status_eqb (status n) old.

Definition set_status (new : NotificationStatus) (n : notification)
    : notification :=
  mkNotificationRow (notification_id n) (notification_topic n) (timestamp n)
    (message n) (metadata n) new.

(** UPDATE notifications SET status = ? WHERE notification_id = ? AND
    status = ?; gives the new store and the number of rows affected. *)
Definition update_status (s : store) (new : NotificationStatus) (id : Z)
    (old : NotificationStatus) : store * Z :=
  (mkStore (devices s) (topics s) (topics_seq s)
     (List.map (fun n => if matches id old n then set_status new n else n)
        (notifications s))
     (notifications_seq s),
   Z.of_nat (length (List.filter (matches id old) (notifications s)))).

(** *** The database handle

    The world a call runs in: the committed store, the clock read by
    CURRENT_TIMESTAMP, and the driver calls that are going to fail.  Every
    call into database/sql consumes one entry of [faults]; [true] makes
    that call return an error (a cancelled context, a lost connection, a
    full disk), and an exhausted list means no further failure. *)
Record world := mkWorld {
  database : store;
  now : Z;
  faults : list bool
}.

Definition M (A : Type) : Type := world -> result A * world.

Definition ret {A} (a : A) : M A := fun w => (Ok a, w).

Definition throw {A} (e : error) : M A := fun w => (Err e, w).

Definition bind {A B} (c : M A) (k : A -> M B) : M B :=
  fun w =>
    match c w with
    | (Ok a, w') => k a w'
    | (Err e, w') => (Err e, w')
    end.

(** fmt.Errorf("msg: %w", err) on the error path of [c] *)
Definition wrap {A} (msg : string) (c : M A) : M A :=
  fun w =>
    match c w with
    | (Ok a, w') => (Ok a, w')
    | (Err e, w') => (Err (Wrap msg e), w')
    end.

(** A call whose error is dropped by the caller. *)
Definition ignore {A} (c : M A) : M unit :=
  fun w => (Ok tt, snd (c w)).

Declare Scope db_scope.
Delimit Scope db_scope with db.
Notation "'let*' x ':=' c 'in' k" := (bind c (fun x => k))
  (at level 10, x pattern, c at level 100, k at level 200) : db_scope.
Open Scope db_scope.

(** One call into the driver. *)
Definition driver : M unit :=
  fun w =>
    match faults w with
    | [] => (Ok tt, w)
    | failing :: later =>
        (if failing then Err ErrDriver else Ok tt,
         mkWorld (database w) (now w) later)
    end.

(** A transaction ([*sql.Tx]).  BEGIN is deferred: the transaction reads
    the committed store at its first statement and works on its own copy
    from then on; Commit publishes the copy, and the deferred Rollback of
    every caller drops it. *)
Definition Tx := option store.

Definition view (w : world) (tx : Tx) : store :=
  match tx with
  | Some s => s
  | None => database w
  end.

Record Result := mkResult {
  lastInsertId : Z;
  rowsAffected : Z
}.

Definition BeginTx : M Tx :=
  let* _ := driver in ret None.

Definition Commit (tx : Tx) : M unit :=
  let* _ := driver in
  fun w => (Ok tt, mkWorld (view w tx) (now w) (faults w)).

Definition LastInsertId (res : Result) : M Z :=
  let* _ := driver in ret (lastInsertId res).

Definition RowsAffected (res : Result) : M Z :=
  let* _ := driver in ret (rowsAffected res).

(** tx.QueryRowContext(ctx, "SELECT topic_id ...", name).Scan(&topicID),
    one call into the driver; [None] is sql.ErrNoRows, which the caller
    tells apart from the other errors. *)
Definition QueryTopicID (tx : Tx) (name : string) : M (Tx * option Z) :=
  let* _ := driver in
  fun w => let s := view w tx in (Ok (Some s, select_topic_id s name), w).

Definition ExecInsertTopic (tx : Tx) (name descr : string) : M (Tx * Result) :=
  let* _ := driver in
  fun w =>
    match insert_topic (view w tx) (now w) name descr with
    | Some (s, id) => (Ok (Some s, mkResult id 1), w)
    | None => (Err ErrConstraint, w)
    end.

Definition ExecInsertDevice (tx : Tx) (id key : string) : M (Tx * Result) :=
  let* _ := driver in
  fun w =>
    match insert_device (view w tx) (now w) id key with
    | Some s => (Ok (Some s, mkResult 0 1), w)
    | None => (Err ErrConstraint, w)
    end.

Definition ExecInsertNotification (tx : Tx) (topicID : Z) (msg : string)
    (md : json) : M (Tx * Result) :=
  let* _ := driver in
  fun w =>
    let '(s, id) := insert_notification (view w tx) (now w) topicID msg md in
    (Ok (Some s, mkResult id 1), w).

Definition ExecUpdateStatus (tx : Tx) (new : NotificationStatus) (id : Z)
    (old : NotificationStatus) : M (Tx * Result) :=
  let* _ := driver in
  fun w =>
    let '(s, rows) := update_status (view w tx) new id old in
    (Ok (Some s, mkResult 0 rows), w).

(** *** The operations of [LibSQL] *)

Definition validateDevice (deviceID publicKey : string) : option error :=
  if String.eqb deviceID "" then Some ErrEmptyDeviceID
  else if String.eqb publicKey "" then Some ErrEmptyPublicKey
  else None.

Definition validateTopic (topicName : string) : option error :=
  if String.eqb topicName "" then Some ErrEmptyTopic
  else if (MaxTopicNameLength <? String.length topicName)%nat
       then Some ErrTopicTooLong
  else None.

Definition validateNotification (notif : exchange.Notification)
    : option error :=
  match validateTopic (exchange.Topic notif) with
  | Some err => Some err
  | None =>
      if String.eqb (exchange.Message notif) "" then Some ErrEmptyMessage
      else None
  end.

Definition InsertDevice (deviceID publicKey : string) : M unit :=
  match validateDevice deviceID publicKey with
  | Some err => throw err
  | None =>
      let* tx := wrap "failed to begin transaction" BeginTx in
      let* (tx, _) := wrap "failed to insert device"
                    (ExecInsertDevice tx deviceID publicKey) in
      Commit tx
  end.

Definition GetOrCreateTopic (topicName descr : string) : M Z :=
  match validateTopic topicName with
  | Some err => throw err
  | None =>
      let* tx := wrap "failed to begin transaction" BeginTx in
      let* (tx, found) := wrap "failed to get topic" (QueryTopicID tx topicName) in
      match found with
      | Some topicID =>
          let* _ := ignore (Commit tx) in
          ret topicID
      | None =>
          let* (tx, res) := wrap "failed to insert topic"
                          (ExecInsertTopic tx topicName descr) in
          let* topicID := wrap "failed to get topic ID" (LastInsertId res) in
          let* _ := wrap "failed to commit transaction" (Commit tx) in
          ret topicID
      end
  end.

Definition InsertNotification (notif : exchange.Notification) : M Z :=
  match validateNotification notif with
  | Some err => throw err
  | None =>
      let* tx := wrap "failed to begin transaction" BeginTx in
      let* topicID := wrap "failed to get or create topic"
                   (GetOrCreateTopic (exchange.Topic notif) "") in
      let metadataJSON := Marshal (exchange.Metadata notif) in
      let* (tx, res) := wrap "failed to insert notification"
                      (ExecInsertNotification tx topicID
                         (exchange.Message notif) metadataJSON) in
      let* notificationID := wrap "failed to get notification ID"
                          (LastInsertId res) in
      let* _ := wrap "failed to commit transaction" (Commit tx) in
      ret notificationID
  end.

Definition MarkNotificationSent (notificationID : Z) : M unit :=
  let* tx := wrap "failed to begin transaction" BeginTx in
  let* (tx, res) := wrap "failed to mark notification as sent"
                  (ExecUpdateStatus tx NotificationStatusSent notificationID
                     NotificationStatusInput) in
  let* rows := wrap "failed to get rows affected" (RowsAffected res) in
  if (rows =? 0)%Z then ret tt else Commit tx.

Definition MarkNotificationError (notificationID : Z) : M unit :=
  let* tx := wrap "failed to begin transaction" BeginTx in
  let* (tx, res) := wrap "failed to mark notification as error"
                  (ExecUpdateStatus tx NotificationStatusError notificationID
                     NotificationStatusInput) in
  let* rows := wrap "failed to get rows affected" (RowsAffected res) in
  if (rows =? 0)%Z then ret tt else Commit tx.

End db.


(** ** Concurrent callers of [GetOrCreateTopic]

    Each goroutine runs the body of [GetOrCreateTopic] in a transaction
    of its own, on a connection of its own.  A call is cut at the one
    point where it has read the store and not yet written: after the
    SELECT.  The scheduler picks which call advances, and a step acts on
    the committed store.  The locks of the engine and the failures of the
    driver are not part of this model: a statement that the engine would
    refuse with a lock error goes through here, or is refused on the
    UNIQUE constraint, and the code wraps either error in the same way. *)

Module concurrent.
Import db.

Inductive call :=
| Ready (topicName descr : string)
| NoRows (topicName descr : string)
| Returned (r : result Z).

(** The next step of one call: validation, BEGIN and the SELECT for a
    call that has not started; the INSERT, LastInsertId and COMMIT for a
    call whose SELECT found no row. *)
Definition step (s : store) (clock : Z) (c : call) : store * call :=
  match c with
  | Ready topicName descr =>
      match validateTopic topicName with
      | Some err => (s, Returned (Err err))
      | None =>
          match select_topic_id s topicName with
          | Some topicID => (s, Returned (Ok topicID))
          | None => (s, NoRows topicName descr)
          end
      end
  | NoRows topicName descr =>
      match insert_topic s clock topicName descr with
      | Some (s', topicID) => (s', Returned (Ok topicID))
      | None => (s, Returned (Err (Wrap "failed to insert topic" ErrConstraint)))
      end
  | Returned r => (s, c)
  end.

(** The calls advance in the order the schedule names them. *)
Fixpoint run (schedule : list nat) (clock : Z) (s : store)
    (calls : list call) : store * list call :=
  match schedule with
  | [] => (s, calls)
  | i :: later =>
      match calls !! i with
      | Some c =>
          let '(s', c') := step s clock c in
          run later clock s' (<[i := c']> calls)
      | None => run later clock s calls
      end
  end.

End concurrent.

(** ** The reading of the parser that the specification gives

    These follow the words of the specification, not the code, and are
    what the code is compared with. *)

Module spec.
Import Strings exchange.

(** "split on the first colon; both trimmed sides must be non-empty or
    the line is silently skipped" *)
Definition spec_metadataStep (metadata : gmap string string) (line : string)
    : gmap string string :=
  match Cut line ":" with
  | None => metadata
  | Some (before, after) =>
      if String.eqb (TrimSpace before) "" || String.eqb (TrimSpace after) ""
      then metadata
      else <[TrimSpace before := TrimSpace after]> metadata
  end.

Definition spec_parseMetadata (lines : list string) : gmap string string :=
  fold_left spec_metadataStep lines ∅.

(** "at least three consecutive dash characters" at the start of a line *)
Definition spec_separator (line : string) : Prop :=
  exists rest, line = "---" ++ rest.

(** "Lines before the separator form the header" *)
Fixpoint spec_header (lines : list string) : list string :=
  match lines with
  | [] => []
  | line :: rest => if isRule line then [] else line :: spec_header rest
  end.

(** The lines from the first separator on, the separator included. *)
Fixpoint spec_from_separator (lines : list string) : list string :=
  match lines with
  | [] => []
  | line :: rest => if isRule line then lines else spec_from_separator rest
  end.

(** "lines at/after it form the body": the lines that follow the first
    separator line. *)
Definition spec_body (lines : list string) : list string :=
  tl (spec_from_separator lines).

(** "characters": the code points of a name, that is the bytes that are
    not continuation bytes (10xxxxxx) of its UTF-8 encoding. *)
Definition spec_characters (s : string) : nat :=
  length
    (List.filter
       (fun c => negb ((128 <=? nat_of_ascii c)%nat
                       && (nat_of_ascii c <? 192)%nat))
       (list_ascii_of_string s)).

(** "blank": nothing is left of the text once the white space around it
    is removed. *)
Definition spec_blank (s : string) : Prop := TrimSpace s = "".

(** The letter e with an acute accent, two bytes in UTF-8, and a name
    made of 128 of them. *)
Definition e_acute : string :=
  String (ascii_of_nat 195) (String (ascii_of_nat 169) "").

Definition accented_name : string :=
  String.concat "" (List.repeat e_acute 128).

End spec.

(** ** Vocabulary of the store properties *)

Module store_props.
Import db.

(** No row with this id is in INPUT: the id is unknown, or its row is
    SENT or ERROR already. *)
Definition settled (s : store) (id : Z) : Prop :=
  forall n, In n (notifications s) -> notification_id n = id ->
            status n <> NotificationStatusInput.

(** The body that [MarkNotificationSent] and [MarkNotificationError]
    share, up to the status written and the text of one error. *)
Definition markAs (msg : string) (new : NotificationStatus)
    (notificationID : Z) : M unit :=
  let* tx := wrap "failed to begin transaction" BeginTx in
  let* (tx, res) := wrap msg
                      (ExecUpdateStatus tx new notificationID
                         NotificationStatusInput) in
  let* rows := wrap "failed to get rows affected" (RowsAffected res) in
  if (rows =? 0)%Z then ret tt else Commit tx.

(** What the UPDATE of the two marks does to one row. *)
Definition marked (new : NotificationStatus) (id : Z) (n n' : notification)
    : Prop :=
  (notification_id n = id /\ status n = NotificationStatusInput
   /\ n' = set_status new n)
  \/ ((notification_id n <> id \/ status n <> NotificationStatusInput)
      /\ n' = n).

(** A result that is not one of the bare sentinel errors. *)
Definition no_sentinel {A} (r : result A) : Prop :=
  match r with
  | Ok _ => True
  | Err (Wrap _ _) => True
  | Err _ => False
  end.

(** A store with one topic and one notification in the given status,
    and a driver that does not fail. *)
Definition one_notification (st : NotificationStatus) : world :=
  mkWorld
    (mkStore [] [mkTopic 1 "t" "" 0] 1
       [mkNotificationRow 1 1 0 "m" JSONNull st] 1)
    0 [].

(** The store after a topic row was appended. *)
Definition with_topic (s : store) (t : topic) : store :=
  mkStore (devices s) (topics s ++ [t]) (topic_id t) (notifications s)
    (notifications_seq s).

(** The store as the schema and the AUTOINCREMENT counters keep it:
    unique device ids, topic names, topic ids and notification ids, ids
    between 1 and the counter of their table, and every notification
    under a topic that exists. *)
Record wf_store (s : store) : Prop := mkWf {
  wf_devices : List.NoDup (List.map device_id (devices s));
  wf_topic_names : List.NoDup (List.map topic_name (topics s));
  wf_topic_ids : List.NoDup (List.map topic_id (topics s));
  wf_topic_range :
    Forall (fun t => (0 < topic_id t <= topics_seq s)%Z) (topics s);
  wf_topics_seq : (0 <= topics_seq s)%Z;
  wf_notification_ids :
    List.NoDup (List.map notification_id (notifications s));
  wf_notification_range :
    Forall (fun n => (0 < notification_id n <= notifications_seq s)%Z)
      (notifications s);
  wf_notifications_seq : (0 <= notifications_seq s)%Z;
  wf_foreign_key :
    Forall (fun n => In (notification_topic n) (List.map topic_id (topics s)))
      (notifications s)
}.

(** The store after a device row was appended. *)
Definition with_device (s : store) (d : device) : store :=
  mkStore (devices s ++ [d]) (topics s) (topics_seq s) (notifications s)
    (notifications_seq s).

(** The store after a notification row was appended. *)
Definition with_notification (s : store) (n : notification) : store :=
  mkStore (devices s) (topics s) (topics_seq s) (notifications s ++ [n])
    (notification_id n).

(** The store once the rows of the given id that are in INPUT have taken
    the given status. *)
Definition with_status (s : store) (new : NotificationStatus) (id : Z)
    : store :=
  fst (update_status s new id NotificationStatusInput).

End store_props.

(** * Properties *)

(** ** The parser *)

Section Parser.
Import Strings exchange spec.

Lemma isRule_prefix (line : string) :
  isRule line = true <-> spec_separator line.
Proof.
  unfold isRule, HasPrefix, spec_separator. split.
  - destruct line as [|c1 [|c2 [|c3 rest]]]; cbn [String.prefix]; intros H;
      repeat match type of H with
             | (if ascii_dec ?a ?b then _ else _) = true =>
                 destruct (ascii_dec a b) as [<-|]
             end; try discriminate H.
    exists rest. reflexivity.
  - intros [rest ->]. destruct rest; reflexivity.
Qed.

Lemma splitLines_body (lines head message : list string) :
  splitLines lines head message false
  = (head, (message ++ List.filter notRule lines)%list).
Proof.
  revert message. induction lines as [|line rest IH]; intros message; simpl.
  - now rewrite List.app_nil_r.
  - unfold notRule at 1. destruct (isRule line); simpl.
    + apply IH.
    + rewrite IH. now rewrite <- List.app_assoc.
Qed.

Lemma splitLines_head (lines head message : list string) :
  splitLines lines head message true
  = ((head ++ spec_header lines)%list,
     (message ++ List.filter notRule (spec_body lines))%list).
Proof.
  revert head. induction lines as [|line rest IH]; intros head; simpl.
  - now rewrite !List.app_nil_r.
  - unfold spec_body. simpl. destruct (isRule line) eqn:Hrule; simpl.
    + rewrite splitLines_body. now rewrite List.app_nil_r.
    + rewrite IH. now rewrite <- List.app_assoc.
Qed.

Lemma headerOf_eq (lines : list string) : headerOf lines = spec_header lines.
Proof. unfold headerOf. now rewrite splitLines_head. Qed.

Lemma messageOf_eq (lines : list string) :
  messageOf lines = List.filter notRule (spec_body lines).
Proof. unfold messageOf. now rewrite splitLines_head. Qed.

(** [parse] in terms of the two slices. *)
Lemma parse_unfold (lines : list string) :
  parse lines
  = match cleanHead (headerOf lines), messageOf lines with
    | [], _ => Err (NoTopicError "")
    | _ :: _, [] => Err (EmptyMessageError "")
    | topic :: rest, message =>
        Ok {| Topic := topic;
              Metadata := Some (parseMetadata rest);
              Message := Join message newline |}
    end.
Proof.
  unfold parse, headerOf, messageOf.
  destruct (splitLines lines [] [] true) as [head message]; simpl.
  destruct (cleanHead head) as [|topic rest]; simpl; [reflexivity|].
  destruct message; reflexivity.
Qed.

Lemma no_rule_header (lines : list string) :
  (forall line, In line lines -> isRule line = false) ->
  spec_header lines = lines /\ spec_body lines = [].
Proof.
  unfold spec_body. induction lines as [|line rest IH]; intros Hno; simpl.
  - split; reflexivity.
  - rewrite (Hno line (or_introl eq_refl)).
    destruct IH as [IH1 IH2]; [intros l Hl; apply Hno; now right|].
    now rewrite IH1, IH2.
Qed.

Lemma cleanHead_nil (head : list string) :
  cleanHead head = []
  <-> forall line, In line head -> line = "" \/ isComment line = true.
Proof.
  unfold cleanHead. induction head as [|line rest IH]; simpl.
  - split; [intros _ l []|reflexivity].
  - destruct (String.eqb_spec line "") as [->|Hne]; simpl.
    + rewrite IH. split.
      * intros H l [<-|Hl]; [now left|now apply H].
      * intros H l Hl. apply H. now right.
    + destruct (isComment line) eqn:Hc; simpl.
      * rewrite IH. split.
        -- intros H l [<-|Hl]; [now right|now apply H].
        -- intros H l Hl. apply H. now right.
      * split; [discriminate|].
        intros H. destruct (H line (or_introl eq_refl)); congruence.
Qed.

(** C5 (as amended).  A separator line is a line that starts with three
    dashes, whatever follows them.  The lines before the first separator
    are the header; the body is made of the lines after the first
    separator that are not separator lines themselves, every separator
    line being dropped.  The example file of the specification parses to
    topic "Updates", metadata {"Date": "2024-11-29"} and message
    "Server down". *)
Theorem parse_header_and_body :
  (forall line, isRule line = true <-> spec_separator line)
  /\ (forall lines,
        headerOf lines = spec_header lines
        /\ messageOf lines = List.filter notRule (spec_body lines))
  /\ parse ["Updates"; "Date: 2024-11-29"; "---"; "Server down"]
     = Ok {| Topic := "Updates";
             Metadata := Some {["Date" := "2024-11-29"]};
             Message := "Server down" |}.
Proof.
  split; [exact isRule_prefix|]. split.
  - intros lines. split; [apply headerOf_eq|apply messageOf_eq].
  - vm_compute. reflexivity.
Qed.

(** C5 as stated fails: with a second separator line in the body, the
    message is not made of the lines that follow the first separator
    (nor of the lines from the separator on): the second separator line
    is missing from it. *)
Lemma parse_drops_later_separators :
  spec_body ["t"; "---"; "a"; "---"; "b"] = ["a"; "---"; "b"]
  /\ messageOf ["t"; "---"; "a"; "---"; "b"] = ["a"; "b"]
  /\ messageOf ["t"; "---"; "a"; "---"; "b"]
     <> spec_body ["t"; "---"; "a"; "---"; "b"]
  /\ messageOf ["t"; "---"; "a"; "---"; "b"]
     <> spec_from_separator ["t"; "---"; "a"; "---"; "b"]
  /\ parse ["t"; "---"; "a"; "---"; "b"]
     = Ok {| Topic := "t"; Metadata := Some ∅;
             Message := "a" ++ newline ++ "b" |}.
Proof.
  repeat split; try (vm_compute; reflexivity); vm_compute; discriminate.
Qed.

(** C6 (as amended).  When the cleaned header is not empty, [parse]
    fails with EmptyMessage exactly when no line is left of the lines
    after the first separator once the separator lines among them are
    dropped (so also when there is no separator, or nothing but separator
    lines after it); the message of a successful parse is made of those
    lines, the lines after the first separator that are not separator
    lines, joined with "\n", and with such a line the parse succeeds.
    The input ["topic", "---"] fails with EmptyMessage. *)
Theorem parse_empty_body :
  (forall lines,
     cleanHead (spec_header lines) <> [] ->
     (parse lines = Err (EmptyMessageError "")
      <-> List.filter notRule (spec_body lines) = [])
     /\ (forall n, parse lines = Ok n ->
                   Message n
                   = Join (List.filter notRule (spec_body lines)) newline)
     /\ (List.filter notRule (spec_body lines) <> [] ->
         exists n, parse lines = Ok n))
  /\ parse ["topic"; "---"] = Err (EmptyMessageError "").
Proof.
  split; [|reflexivity].
  intros lines Hhead. rewrite parse_unfold, headerOf_eq, messageOf_eq.
  destruct (cleanHead (spec_header lines)) as [|topic rest]; [congruence|].
  destruct (List.filter notRule (spec_body lines)) as [|line body].
  - repeat split; try discriminate; congruence.
  - split; [split; discriminate|]. split.
    + intros n [= <-]. reflexivity.
    + intros _. eexists. reflexivity.
Qed.

Lemma parse_empty_body_witness :
  cleanHead (spec_header ["topic"; "---"; "-----"]) <> []
  /\ parse ["topic"; "---"; "-----"] = Err (EmptyMessageError "")
  /\ exists n, parse ["topic"; "---"; "a"; "---"; "b"] = Ok n
               /\ Message n = Join ["a"; "b"] newline.
Proof.
  assert (H1 : cleanHead (spec_header ["topic"; "---"; "-----"]) <> [])
    by (vm_compute; discriminate).
  assert (H2 : cleanHead (spec_header ["topic"; "---"; "a"; "---"; "b"]) <> [])
    by (vm_compute; discriminate).
  split; [exact H1|]. split.
  - apply (proj1 (proj1 parse_empty_body _ H1)). reflexivity.
  - destruct (proj2 (proj2 (proj1 parse_empty_body _ H2))) as [n Hn];
      [vm_compute; discriminate|].
    exists n. split; [exact Hn|].
    exact (proj1 (proj2 (proj1 parse_empty_body _ H2)) n Hn).
Defined.

(** C6 as stated fails.  On ["t", "---", "---"] the cleaned header is
    not empty and a line follows the separator, so the body after the
    separator is not empty, yet [parse] fails with EmptyMessage; and on
    ["t", "---", "a", "---", "b"] the message is not the lines after the
    separator joined with "\n". *)
Lemma parse_separator_lines_after_separator :
  cleanHead (spec_header ["t"; "---"; "---"]) <> []
  /\ spec_body ["t"; "---"; "---"] = ["---"]
  /\ parse ["t"; "---"; "---"] = Err (EmptyMessageError "")
  /\ parse ["t"; "---"; "a"; "---"; "b"]
     = Ok {| Topic := "t"; Metadata := Some ∅;
             Message := Join ["a"; "b"] newline |}
  /\ Join ["a"; "b"] newline
     <> Join (spec_body ["t"; "---"; "a"; "---"; "b"]) newline.
Proof.
  repeat split; try (vm_compute; reflexivity); vm_compute; discriminate.
Qed.

(** C9 (as amended).  Without a line that starts with three dashes
    [parse] never succeeds: all lines go to the header and the body stays
    empty.  It fails with NoTopic when every line is the empty string or a
    comment (starts with two dashes), and with EmptyMessage when some line
    is neither; a line of white space only is such a line. *)
Theorem parse_without_separator (lines : list string) :
  (forall line, In line lines -> isRule line = false) ->
  (forall n, parse lines <> Ok n)
  /\ ((forall line, In line lines -> line = "" \/ isComment line = true) ->
      parse lines = Err (NoTopicError ""))
  /\ ((exists line, In line lines /\ line <> "" /\ isComment line = false) ->
      parse lines = Err (EmptyMessageError "")).
Proof.
  intros Hno. destruct (no_rule_header lines Hno) as [Hhead Hbody].
  rewrite parse_unfold, headerOf_eq, messageOf_eq, Hhead, Hbody. simpl.
  destruct (cleanHead lines) as [|topic rest] eqn:Hclean.
  - repeat split; try discriminate.
    intros (line & Hin & Hne & Hc).
    destruct (proj1 (cleanHead_nil lines) Hclean line Hin); congruence.
  - repeat split; try discriminate.
    intros Hall. apply cleanHead_nil in Hall. congruence.
Qed.

Lemma parse_without_separator_witness :
  parse ["-- note"; ""] = Err (NoTopicError "")
  /\ parse ["-- note"; "topic"; "key: value"] = Err (EmptyMessageError "").
Proof.
  split.
  - apply (parse_without_separator ["-- note"; ""]).
    + intros line [<-|[<-|[]]]; reflexivity.
    + intros line [<-|[<-|[]]]; [right|left]; reflexivity.
  - apply (parse_without_separator ["-- note"; "topic"; "key: value"]).
    + intros line [<-|[<-|[<-|[]]]]; reflexivity.
    + exists "topic". split; [right; left; reflexivity|].
      split; [discriminate|reflexivity].
Defined.

(** C9 as stated fails: the one line of [" "] is blank and there is no
    separator, so no line that is neither blank nor a comment exists, yet
    [parse] takes the line as topic and fails with EmptyMessage, not with
    NoTopic. *)
Lemma parse_blank_line_is_a_topic :
  spec_blank " "
  /\ isRule " " = false
  /\ parse [" "] = Err (EmptyMessageError "")
  /\ parse [" "] <> Err (NoTopicError "").
Proof.
  repeat split; try (vm_compute; reflexivity). vm_compute. discriminate.
Qed.

(** The missing-topic check comes first: an empty cleaned header gives
    NoTopic whatever the body is. *)
Lemma parse_no_topic (lines : list string) :
  cleanHead (headerOf lines) = [] -> parse lines = Err (NoTopicError "").
Proof. intros H. rewrite parse_unfold, H. reflexivity. Qed.

(** C10.  When the cleaned header and the body are both empty, [parse]
    fails with NoTopic, not with EmptyMessage; the one-line input ["---"]
    is such a case. *)
Theorem parse_no_topic_before_empty_message :
  (forall lines,
     cleanHead (headerOf lines) = [] -> messageOf lines = [] ->
     parse lines = Err (NoTopicError ""))
  /\ parse ["---"] = Err (NoTopicError "").
Proof.
  split; [|reflexivity].
  intros lines Hhead _. now apply parse_no_topic.
Qed.

Lemma parse_no_topic_before_empty_message_witness :
  cleanHead (headerOf ["---"]) = [] /\ messageOf ["---"] = []
  /\ parse ["---"] = Err (NoTopicError "").
Proof.
  split; [reflexivity|]. split; [reflexivity|].
  apply (proj1 parse_no_topic_before_empty_message ["---"]); reflexivity.
Defined.

(** *** Metadata lines *)

Lemma Cut_Some (s : string) (sep : ascii) (l r : string) :
  Cut s sep = Some (l, r)
  <-> s = l ++ String sep r /\ ~ In sep (list_ascii_of_string l).
Proof.
  split.
  - revert l. induction s as [|c rest IH]; intros l; simpl; [discriminate|].
    destruct (Ascii.eqb_spec c sep) as [->|Hne].
    + intros [= <- <-]. split; [reflexivity|intros []].
    + destruct (Cut rest sep) as [[b a]|]; [|discriminate].
      intros [= <- <-]. destruct (IH b eq_refl) as [-> Hnot].
      split; [reflexivity|]. simpl. intros [?|?]; [congruence|tauto].
  - intros [-> Hnot]. induction l as [|c l IH]; simpl.
    + now rewrite Ascii.eqb_refl.
    + simpl in Hnot. destruct (Ascii.eqb_spec c sep) as [->|Hne]; [tauto|].
      rewrite IH; [reflexivity|tauto].
Qed.

Lemma pairOf_Cut (line : string) :
  pairOf line
  = match Cut line ":" with
    | Some (l, r) =>
        if String.eqb l "" || String.eqb r "" then None
        else Some (TrimSpace l, TrimSpace r)
    | None => None
    end.
Proof.
  unfold pairOf, SplitN. destruct (Cut line ":") as [[l r]|]; reflexivity.
Qed.

Lemma metadataStep_pairOf (m : gmap string string) (line : string) :
  metadataStep m line
  = match pairOf line with
    | Some (k, v) => <[k := v]> m
    | None => m
    end.
Proof.
  unfold metadataStep, pairOf.
  destruct ((length (SplitN line ":" 2) <? 2)%nat
            || String.eqb (nth 0 (SplitN line ":" 2) "") ""
            || String.eqb (nth 1 (SplitN line ":" 2) "") ""); reflexivity.
Qed.

Lemma parseMetadata_snoc (lines : list string) (line : string) :
  parseMetadata (lines ++ [line]) = metadataStep (parseMetadata lines) line.
Proof. unfold parseMetadata. now rewrite fold_left_app. Qed.

Lemma snoc_split (lines before after : list string) (x line : string) :
  (lines ++ [x] = before ++ line :: after)%list ->
  (after = [] /\ lines = before /\ x = line)
  \/ (exists after', after = (after' ++ [x])%list
                     /\ lines = (before ++ line :: after')%list).
Proof.
  destruct after as [|y after _] using rev_ind; intros H.
  - left. apply (app_inj_tail lines before x line) in H. tauto.
  - right. exists after.
    change (before ++ line :: after ++ [y])%list
      with (before ++ (line :: after) ++ [y])%list in H.
    rewrite List.app_assoc in H. apply app_inj_tail in H.
    destruct H as [-> ->]. split; reflexivity.
Qed.

(** The value kept for a key is the one of the last line that has it. *)
Lemma parseMetadata_lookup (lines : list string) (k v : string) :
  parseMetadata lines !! k = Some v
  <-> exists before line after,
        lines = (before ++ line :: after)%list
        /\ pairOf line = Some (k, v)
        /\ forall line' v', In line' after -> pairOf line' <> Some (k, v').
Proof.
  induction lines as [|x lines IH] using rev_ind.
  - unfold parseMetadata. simpl. rewrite lookup_empty. split; [discriminate|].
    intros (before & line & after & H & _). now destruct before.
  - rewrite parseMetadata_snoc, metadataStep_pairOf.
    assert (Hkeep : parseMetadata lines !! k = Some v
                    -> (forall v', pairOf x <> Some (k, v'))
                    -> exists before line after,
                         (lines ++ [x])%list = (before ++ line :: after)%list
                         /\ pairOf line = Some (k, v)
                         /\ forall line' v', In line' after ->
                                            pairOf line' <> Some (k, v')).
    { intros Hl Hx. apply IH in Hl as (before & line & after & -> & Hp & Hlast).
      exists before, line, (after ++ [x])%list. split.
      - now rewrite <- List.app_assoc.
      - split; [exact Hp|]. intros line' v' Hin.
        apply in_app_or in Hin as [Hin|[<-|[]]]; [now apply Hlast|apply Hx]. }
    assert (Hback : (forall v', pairOf x <> Some (k, v'))
                    -> (exists before line after,
                          (lines ++ [x])%list = (before ++ line :: after)%list
                          /\ pairOf line = Some (k, v)
                          /\ forall line' v', In line' after ->
                                             pairOf line' <> Some (k, v'))
                    -> parseMetadata lines !! k = Some v).
    { intros Hx (before & line & after & Heq & Hp & Hlast).
      apply snoc_split in Heq as [(-> & -> & ->)|(after' & -> & ->)].
      - now apply Hx in Hp.
      - apply IH. exists before, line, after'. split; [reflexivity|].
        split; [exact Hp|]. intros line' v' Hin. apply Hlast.
        apply in_or_app. now left. }
    destruct (pairOf x) as [[k' v']|] eqn:Hx.
    + destruct (decide (k' = k)) as [->|Hne].
      * rewrite lookup_insert_eq. split.
        -- intros [= <-]. exists lines, x, []. split; [reflexivity|].
           split; [exact Hx|]. intros ? ? [].
        -- intros (before & line & after & Heq & Hp & Hlast).
           apply snoc_split in Heq as [(-> & -> & ->)|(after' & -> & ->)].
           ++ congruence.
           ++ exfalso. apply (Hlast x v'); [|exact Hx].
              apply in_or_app. right. now left.
      * rewrite lookup_insert_ne by exact Hne. split.
        -- intros Hl. apply Hkeep; [exact Hl|]. intros v'' [= ? ?]. congruence.
        -- apply Hback. intros v'' [= ? ?]. congruence.
    + split.
      * intros Hl. apply Hkeep; [exact Hl|]. discriminate.
      * apply Hback. discriminate.
Qed.

(** C2 (as amended).  A metadata line is cut at its first colon; it adds
    a pair exactly when it has a colon and the text before and the text
    after the colon are both non-empty before any trimming, and the pair
    is then made of the two trimmed texts (so that a side made of white
    space only gives an empty key or an empty value).  Any other line is
    skipped.  For a key given by several lines the value of the last one
    is kept, and lines that add no pair give the empty map. *)
Theorem parseMetadata_pairs :
  (forall line k v,
     pairOf line = Some (k, v)
     <-> exists l r,
           line = l ++ ":" ++ r
           /\ ~ In ":"%char (list_ascii_of_string l)
           /\ l <> "" /\ r <> ""
           /\ k = TrimSpace l /\ v = TrimSpace r)
  /\ (forall lines line,
        parseMetadata (lines ++ [line])
        = match pairOf line with
          | Some (k, v) => <[k := v]> (parseMetadata lines)
          | None => parseMetadata lines
          end)
  /\ (forall lines k v,
        parseMetadata lines !! k = Some v
        <-> exists before line after,
              lines = (before ++ line :: after)%list
              /\ pairOf line = Some (k, v)
              /\ forall line' v', In line' after ->
                                 pairOf line' <> Some (k, v'))
  /\ (forall lines,
        (forall line, In line lines -> pairOf line = None) ->
        parseMetadata lines = ∅).
Proof.
  split; [|split; [|split]].
  - intros line k v. rewrite pairOf_Cut. split.
    + destruct (Cut line ":") as [[l r]|] eqn:Hcut; [|discriminate].
      apply Cut_Some in Hcut as [-> Hnot].
      destruct (String.eqb_spec l "") as [->|Hl]; [discriminate|].
      destruct (String.eqb_spec r "") as [->|Hr]; [discriminate|].
      intros [= <- <-]. exists l, r. tauto.
    + intros (l & r & -> & Hnot & Hl & Hr & -> & ->).
      assert (Hcut : Cut (l ++ ":" ++ r) ":" = Some (l, r))
        by (apply Cut_Some; split; [reflexivity|exact Hnot]).
      rewrite Hcut.
      destruct (String.eqb_spec l "") as [->|_]; [congruence|].
      destruct (String.eqb_spec r "") as [->|_]; [congruence|].
      reflexivity.
  - intros lines line.
    now rewrite parseMetadata_snoc, metadataStep_pairOf.
  - exact parseMetadata_lookup.
  - intros lines Hnone. apply map_eq. intros k. rewrite lookup_empty.
    destruct (parseMetadata lines !! k) as [v|] eqn:Hl; [|reflexivity].
    apply parseMetadata_lookup in Hl as (before & line & after & -> & Hp & _).
    rewrite Hnone in Hp; [discriminate|].
    apply in_or_app. right. now left.
Qed.

Lemma parseMetadata_pairs_witness :
  (forall line, In line ["no colon"; ": v"; "k:"] -> pairOf line = None)
  /\ parseMetadata ["no colon"; ": v"; "k:"] = ∅.
Proof.
  assert (H : forall line, In line ["no colon"; ": v"; "k:"] ->
                           pairOf line = None)
    by (intros line [<-|[<-|[<-|[]]]]; reflexivity).
  split; [exact H|].
  exact (proj2 (proj2 (proj2 parseMetadata_pairs)) _ H).
Defined.

(** C2 as stated fails: the line "k: " has an empty value once trimmed
    and still adds the pair ("k", ""), where skipping the lines with an
    empty trimmed side gives the empty map. *)
Lemma parseMetadata_keeps_blank_value :
  TrimSpace " " = ""
  /\ parseMetadata ["k: "] = {["k" := ""]}
  /\ spec_parseMetadata ["k: "] = ∅
  /\ parseMetadata ["k: "] <> spec_parseMetadata ["k: "].
Proof.
  split; [reflexivity|]. split; [vm_compute; reflexivity|].
  split; [vm_compute; reflexivity|].
  intros H. apply (f_equal (fun m => m !! "k")) in H.
  vm_compute in H. discriminate H.
Qed.

End Parser.

(** ** The store *)

Section Store.
Import db store_props.

(** *** Topic names *)

Lemma validateTopic_empty (name : string) :
  validateTopic name = Some ErrEmptyTopic <-> name = "".
Proof.
  unfold validateTopic. destruct (String.eqb_spec name "") as [->|Hne].
  - split; reflexivity.
  - destruct (MaxTopicNameLength <? String.length name)%nat;
      split; congruence.
Qed.

Lemma validateTopic_too_long (name : string) :
  validateTopic name = Some ErrTopicTooLong
  <-> (255 < String.length name)%nat.
Proof.
  unfold validateTopic, MaxTopicNameLength.
  destruct (String.eqb_spec name "") as [->|Hne].
  - simpl. split; [discriminate|lia].
  - destruct (Nat.ltb_spec 255 (String.length name)); split;
      try reflexivity; try discriminate; try lia; auto.
Qed.

Lemma validateTopic_valid (name : string) :
  validateTopic name = None
  <-> name <> "" /\ (String.length name <= 255)%nat.
Proof.
  unfold validateTopic, MaxTopicNameLength.
  destruct (String.eqb_spec name "") as [->|Hne].
  - split; [discriminate|tauto].
  - destruct (Nat.ltb_spec 255 (String.length name)); split;
      try discriminate; try tauto; try lia; try (intros [_ ?]; lia).
Qed.

Lemma bind_wrap_no_sentinel {A B} (msg : string) (c : M A) (k : A -> M B) :
  (forall a w, no_sentinel (fst (k a w))) ->
  forall w, no_sentinel (fst (bind (wrap msg c) k w)).
Proof.
  intros Hk w. unfold bind, wrap.
  destruct (c w) as [[a|e] w']; simpl; [apply Hk|exact I].
Qed.

Lemma GetOrCreateTopic_no_sentinel (name descr : string) (w : world) :
  validateTopic name = None ->
  no_sentinel (fst (GetOrCreateTopic name descr w)).
Proof.
  intros Hvalid. unfold GetOrCreateTopic. rewrite Hvalid.
  apply bind_wrap_no_sentinel. intros tx w1.
  apply bind_wrap_no_sentinel. intros [tx1 [topicID|]] w2.
  - exact I.
  - apply bind_wrap_no_sentinel. intros [tx2 res] w3.
    apply bind_wrap_no_sentinel. intros topicID w4.
    apply bind_wrap_no_sentinel. intros _ w5. exact I.
Qed.

(** C3 (as amended).  [GetOrCreateTopic] fails with ErrEmptyTopic exactly
    when the name is the empty string, and with ErrTopicTooLong exactly
    when the name is longer than 255 bytes (its length being Go's [len]);
    a non-empty name of at most 255 bytes passes the validation. *)
Theorem GetOrCreateTopic_validation (name descr : string) (w : world) :
  (fst (GetOrCreateTopic name descr w) = Err ErrEmptyTopic <-> name = "")
  /\ (fst (GetOrCreateTopic name descr w) = Err ErrTopicTooLong
      <-> (255 < String.length name)%nat)
  /\ (validateTopic name = None
      <-> name <> "" /\ (String.length name <= 255)%nat).
Proof.
  split; [|split; [|apply validateTopic_valid]].
  - rewrite <- validateTopic_empty.
    destruct (validateTopic name) as [err|] eqn:Hv.
    + unfold GetOrCreateTopic. rewrite Hv. simpl. split; congruence.
    + pose proof (GetOrCreateTopic_no_sentinel name descr w Hv) as Hns.
      split; [|discriminate]. intros H. rewrite H in Hns. destruct Hns.
  - rewrite <- validateTopic_too_long.
    destruct (validateTopic name) as [err|] eqn:Hv.
    + unfold GetOrCreateTopic. rewrite Hv. simpl. split; congruence.
    + pose proof (GetOrCreateTopic_no_sentinel name descr w Hv) as Hns.
      split; [|discriminate]. intros H. rewrite H in Hns. destruct Hns.
Qed.

(** C3 as stated fails: a name of 128 characters that take two bytes each
    is refused as too long, and the blank name " " is accepted and gets a
    topic row. *)
Lemma validateTopic_counts_bytes :
  spec.spec_characters spec.accented_name = 128%nat
  /\ String.length spec.accented_name = 256%nat
  /\ fst (GetOrCreateTopic spec.accented_name "" (mkWorld empty_store 0 []))
     = Err ErrTopicTooLong
  /\ spec.spec_blank " "
  /\ GetOrCreateTopic " " "" (mkWorld empty_store 0 [])
     = (Ok 1%Z, mkWorld (with_topic empty_store (mkTopic 1 " " "" 0)) 0 []).
Proof. repeat split; vm_compute; reflexivity. Qed.

(** *** Looking a topic up *)

Lemma find_topic_unique (ts : list topic) (t : topic) :
  List.NoDup (List.map topic_name ts) -> In t ts ->
  List.find (fun t' => String.eqb (topic_name t') (topic_name t)) ts = Some t.
Proof.
  induction ts as [|a ts IH]; simpl; intros Hnd Hin; [destruct Hin|].
  inversion Hnd as [|? ? Hnot Hnd']; subst.
  destruct Hin as [->|Hin].
  - now rewrite String.eqb_refl.
  - destruct (String.eqb_spec (topic_name a) (topic_name t)) as [He|_].
    + exfalso. apply Hnot. rewrite He. now apply in_map.
    + now apply IH.
Qed.

Lemma find_topic_absent (ts : list topic) (name : string) :
  (forall t, In t ts -> topic_name t <> name) ->
  List.find (fun t => String.eqb (topic_name t) name) ts = None
  /\ existsb (fun t => String.eqb (topic_name t) name) ts = false.
Proof.
  induction ts as [|a ts IH]; simpl; intros Hall; [split; reflexivity|].
  destruct (String.eqb_spec (topic_name a) name) as [He|_].
  - exfalso. apply (Hall a); [now left|exact He].
  - apply IH. intros t Ht. apply Hall. now right.
Qed.

(** C7.  With no driver failure and a valid name: when a row has the name
    (names being unique), [GetOrCreateTopic] returns the id of that row
    and leaves the store as it was, the description of the row included;
    when no row has the name, it appends a row with the name, the
    description and the next id, and returns that id. *)
Theorem GetOrCreateTopic_first_writer_wins
    (w : world) (name descr : string) :
  faults w = [] -> validateTopic name = None ->
  (forall t,
     In t (topics (database w)) -> topic_name t = name ->
     List.NoDup (List.map topic_name (topics (database w))) ->
     GetOrCreateTopic name descr w = (Ok (topic_id t), w))
  /\ ((forall t, In t (topics (database w)) -> topic_name t <> name) ->
      GetOrCreateTopic name descr w
      = (Ok (topics_seq (database w) + 1)%Z,
         mkWorld
           (with_topic (database w)
              (mkTopic (topics_seq (database w) + 1) name descr (now w)))
           (now w) [])).
Proof.
  destruct w as [s clock fs]. simpl. intros -> Hvalid.
  unfold GetOrCreateTopic. rewrite Hvalid. split.
  - intros t Hin <- Hnd.
    unfold bind, wrap, ignore, BeginTx, QueryTopicID, Commit, driver, ret,
      select_topic_id, view; simpl.
    now rewrite (find_topic_unique _ _ Hnd Hin).
  - intros Habsent. destruct (find_topic_absent _ _ Habsent) as [Hfind Hex].
    unfold bind, wrap, BeginTx, QueryTopicID, ExecInsertTopic, LastInsertId,
      Commit, driver, ret, select_topic_id, insert_topic, view; simpl.
    rewrite Hfind. simpl. rewrite Hex. reflexivity.
Qed.

Lemma GetOrCreateTopic_first_writer_wins_witness :
  GetOrCreateTopic "t" "second"
    (mkWorld (with_topic empty_store (mkTopic 1 "t" "first" 0)) 5 [])
  = (Ok 1%Z, mkWorld (with_topic empty_store (mkTopic 1 "t" "first" 0)) 5 [])
  /\ GetOrCreateTopic "t" "first" (mkWorld empty_store 0 [])
     = (Ok 1%Z, mkWorld (with_topic empty_store (mkTopic 1 "t" "first" 0)) 0 []).
Proof.
  split.
  - apply (proj1 (GetOrCreateTopic_first_writer_wins
                    (mkWorld (with_topic empty_store (mkTopic 1 "t" "first" 0))
                       5 [])
                    "t" "second" eq_refl eq_refl)
             (mkTopic 1 "t" "first" 0)).
    + left. reflexivity.
    + reflexivity.
    + simpl. constructor; [intros []|constructor].
  - apply (proj2 (GetOrCreateTopic_first_writer_wins
                    (mkWorld empty_store 0 []) "t" "first" eq_refl eq_refl)).
    intros t [].
Defined.

(** *** Status updates *)

Lemma matches_settled (n : notification) (id : Z) :
  (notification_id n = id -> status n <> NotificationStatusInput) ->
  matches id NotificationStatusInput n = false.
Proof.
  unfold matches. intros H.
  destruct (Z.eqb_spec (notification_id n) id) as [He|_]; [|reflexivity].
  specialize (H He). destruct (status n); simpl; congruence.
Qed.

Lemma matches_true (n : notification) (id : Z) :
  matches id NotificationStatusInput n = true
  <-> notification_id n = id /\ status n = NotificationStatusInput.
Proof.
  unfold matches.
  destruct (Z.eqb_spec (notification_id n) id) as [He|Hne];
    destruct (status n); simpl; split; try tauto; try discriminate;
    intros [? ?]; try congruence.
Qed.

Lemma update_rows_settled (new : NotificationStatus) (id : Z)
    (rows : list notification) :
  (forall n, In n rows -> matches id NotificationStatusInput n = false) ->
  List.map (fun n => if matches id NotificationStatusInput n
                     then set_status new n else n) rows = rows
  /\ List.filter (matches id NotificationStatusInput) rows = [].
Proof.
  induction rows as [|n rows IH]; simpl; intros H; [split; reflexivity|].
  rewrite (H n (or_introl eq_refl)).
  destruct IH as [IH1 IH2]; [intros m Hm; apply H; now right|].
  now rewrite IH1, IH2.
Qed.

Lemma update_status_settled (s : store) (new : NotificationStatus) (id : Z) :
  settled s id ->
  update_status s new id NotificationStatusInput = (s, 0%Z).
Proof.
  intros Hs. unfold update_status.
  destruct (update_rows_settled new id (notifications s)) as [Hmap Hfilter].
  - intros n Hin. apply matches_settled. now apply Hs.
  - rewrite Hmap, Hfilter. now destruct s.
Qed.

Lemma update_status_no_row (s : store) (new : NotificationStatus) (id : Z) :
  snd (update_status s new id NotificationStatusInput) = 0%Z ->
  settled s id.
Proof.
  unfold update_status. simpl. intros Hrows n Hin Hid Hst.
  assert (Hm : In n (List.filter (matches id NotificationStatusInput)
                       (notifications s))).
  { apply filter_In. split; [exact Hin|]. now apply matches_true. }
  destruct (List.filter (matches id NotificationStatusInput)
              (notifications s)); [destruct Hm|discriminate Hrows].
Qed.

Lemma update_status_marked (s : store) (new : NotificationStatus) (id : Z) :
  Forall2 (marked new id) (notifications s)
    (notifications (fst (update_status s new id NotificationStatusInput))).
Proof.
  simpl. induction (notifications s) as [|n rows IH]; simpl; constructor.
  - unfold marked.
    destruct (matches id NotificationStatusInput n) eqn:Hm.
    + left. apply matches_true in Hm. tauto.
    + right. split; [|reflexivity].
      destruct (Z.eq_dec (notification_id n) id) as [He|Hne]; [|now left].
      right. intros Hst.
      assert (matches id NotificationStatusInput n = true)
        by (apply matches_true; tauto).
      congruence.
  - exact IH.
Qed.

Lemma update_status_settles (s : store) (new : NotificationStatus) (id : Z) :
  new <> NotificationStatusInput ->
  settled (fst (update_status s new id NotificationStatusInput)) id.
Proof.
  intros Hnew n Hin Hid. simpl in Hin.
  apply in_map_iff in Hin as (n0 & <- & Hin0).
  destruct (matches id NotificationStatusInput n0) eqn:Hm; simpl in *.
  - exact Hnew.
  - intros Hst.
    assert (matches id NotificationStatusInput n0 = true)
      by (apply matches_true; tauto).
    congruence.
Qed.

Lemma MarkNotificationSent_markAs (id : Z) :
  MarkNotificationSent id
  = markAs "failed to mark notification as sent" NotificationStatusSent id.
Proof. reflexivity. Qed.

Lemma MarkNotificationError_markAs (id : Z) :
  MarkNotificationError id
  = markAs "failed to mark notification as error" NotificationStatusError id.
Proof. reflexivity. Qed.

(** With no driver failure a mark returns nil and the store is the one
    the UPDATE gives, whether the transaction is committed or not. *)
Lemma markAs_no_fault (msg : string) (new : NotificationStatus) (id : Z)
    (s : store) (clock : Z) :
  markAs msg new id (mkWorld s clock [])
  = (Ok tt,
     mkWorld (fst (update_status s new id NotificationStatusInput)) clock []).
Proof.
  unfold markAs, bind, wrap, BeginTx, ExecUpdateStatus, RowsAffected, Commit,
    driver, ret, view. cbn -[update_status].
  destruct (update_status s new id NotificationStatusInput) as [s' rows] eqn:Hu.
  cbn -[update_status].
  destruct (Z.eqb_spec rows 0) as [->|Hne]; [|reflexivity].
  pose proof (update_status_no_row s new id) as Hs. rewrite Hu in Hs.
  specialize (Hs eq_refl). rewrite (update_status_settled s new id Hs) in Hu.
  now inversion Hu.
Qed.

(** Whatever the driver does, a mark of a settled id leaves the store as
    it was. *)
Lemma markAs_settled (msg : string) (new : NotificationStatus) (id : Z)
    (w : world) :
  settled (database w) id ->
  database (snd (markAs msg new id w)) = database w.
Proof.
  destruct w as [s clock fs]. cbn [database]. intros Hs.
  unfold markAs, bind, wrap, BeginTx, ExecUpdateStatus, RowsAffected, Commit,
    driver, ret, view.
  destruct fs as [|[] [|[] [|[] fs]]]; cbn -[update_status];
    rewrite ?(update_status_settled s new id Hs); cbn -[update_status];
    try reflexivity.
Qed.

(** C1.  A mark changes the status of the rows with the given id that
    are in INPUT and of no other row.  On an id whose row is SENT or ERROR
    already, or that has no row, [MarkNotificationSent] and
    [MarkNotificationError] leave the whole store unchanged, and return
    no error unless the driver fails; so a mark applied again, after
    either mark, changes nothing. *)
Theorem mark_only_from_input (w : world) (id : Z) :
  (settled (database w) id ->
   database (snd (MarkNotificationSent id w)) = database w
   /\ database (snd (MarkNotificationError id w)) = database w
   /\ (faults w = [] ->
       MarkNotificationSent id w = (Ok tt, w)
       /\ MarkNotificationError id w = (Ok tt, w)))
  /\ (faults w = [] ->
      exists w1 w2,
        MarkNotificationSent id w = (Ok tt, w1)
        /\ MarkNotificationError id w = (Ok tt, w2)
        /\ Forall2 (marked NotificationStatusSent id)
             (notifications (database w)) (notifications (database w1))
        /\ Forall2 (marked NotificationStatusError id)
             (notifications (database w)) (notifications (database w2))
        /\ (devices (database w1), topics (database w1),
            topics_seq (database w1), notifications_seq (database w1))
           = (devices (database w), topics (database w),
              topics_seq (database w), notifications_seq (database w))
        /\ (devices (database w2), topics (database w2),
            topics_seq (database w2), notifications_seq (database w2))
           = (devices (database w), topics (database w),
              topics_seq (database w), notifications_seq (database w))
        /\ MarkNotificationSent id w1 = (Ok tt, w1)
        /\ MarkNotificationError id w1 = (Ok tt, w1)
        /\ MarkNotificationSent id w2 = (Ok tt, w2)
        /\ MarkNotificationError id w2 = (Ok tt, w2)).
Proof.
  rewrite MarkNotificationSent_markAs, MarkNotificationError_markAs. split.
  - intros Hs. split; [now apply markAs_settled|].
    split; [now apply markAs_settled|].
    destruct w as [s clock fs]. cbn [faults database] in *. intros ->.
    rewrite !markAs_no_fault, !(update_status_settled s _ id Hs).
    split; reflexivity.
  - destruct w as [s clock fs]. cbn [faults database]. intros ->.
    rewrite !markAs_no_fault.
    set (s1 := fst (update_status s NotificationStatusSent id
                      NotificationStatusInput)).
    set (s2 := fst (update_status s NotificationStatusError id
                      NotificationStatusInput)).
    assert (H1 : settled s1 id) by (apply update_status_settles; discriminate).
    assert (H2 : settled s2 id) by (apply update_status_settles; discriminate).
    exists (mkWorld s1 clock []), (mkWorld s2 clock []).
    rewrite !markAs_no_fault.
    rewrite !(update_status_settled s1 _ id H1).
    rewrite !(update_status_settled s2 _ id H2).
    cbn [database fst].
    repeat split; try reflexivity; apply update_status_marked.
Qed.

Lemma mark_only_from_input_witness :
  MarkNotificationError 1 (one_notification NotificationStatusSent)
  = (Ok tt, one_notification NotificationStatusSent)
  /\ exists w1 w2,
       MarkNotificationSent 1 (one_notification NotificationStatusInput)
       = (Ok tt, w1)
       /\ MarkNotificationError 1 (one_notification NotificationStatusInput)
          = (Ok tt, w2)
       /\ MarkNotificationError 1 w1 = (Ok tt, w1)
       /\ MarkNotificationSent 1 w2 = (Ok tt, w2).
Proof.
  split.
  - refine (proj2 (proj2 (proj2 (proj1 (mark_only_from_input
                                         (one_notification
                                            NotificationStatusSent) 1) _))
                     eq_refl)).
    intros n [<-|[]] _. discriminate.
  - destruct (proj2 (mark_only_from_input
                      (one_notification NotificationStatusInput) 1) eq_refl)
      as (w1 & w2 & H1 & H2 & _ & _ & _ & _ & _ & H3 & H4 & _).
    exists w1, w2. repeat split; assumption.
Defined.

(** *** Inserting a notification *)

(** An invalid notification is refused before the store is touched. *)
Lemma InsertNotification_invalid (notif : exchange.Notification)
    (err : error) (w : world) :
  validateNotification notif = Some err ->
  InsertNotification notif w = (Err err, w).
Proof. intros H. unfold InsertNotification. now rewrite H. Qed.

(** C4, at the failing input.  The topic is resolved by
    [GetOrCreateTopic] in a transaction of its own, which is committed
    before the notification is inserted.  When the INSERT of the
    notification then fails (the seventh call into the driver),
    [InsertNotification] returns an error and the topic row it has
    created stays in the store. *)
Theorem InsertNotification_not_atomic :
  InsertNotification (exchange.mkNotification "t" None "m")
    (mkWorld empty_store 0 [false; false; false; false; false; false; true])
  = (Err (Wrap "failed to insert notification" ErrDriver),
     mkWorld (with_topic empty_store (mkTopic 1 "t" "" 0)) 0 [])
  /\ with_topic empty_store (mkTopic 1 "t" "" 0) <> empty_store.
Proof. split; [reflexivity|discriminate]. Qed.

End Store.

(** ** Concurrent topic creation *)

Section Concurrent.
Import db store_props concurrent.

Lemma find_none_existsb {A} (f : A -> bool) (l : list A) :
  List.find f l = None -> existsb f l = false.
Proof.
  induction l as [|a l IH]; simpl; [reflexivity|].
  destruct (f a); [discriminate|exact IH].
Qed.

(** The two steps of a call, taken with no other call in between, are
    the sequential [GetOrCreateTopic]. *)
Lemma steps_GetOrCreateTopic (w : world) (name descr : string) :
  faults w = [] ->
  let '(s1, c1) := step (database w) (now w) (Ready name descr) in
  let '(s2, c2) := step s1 (now w) c1 in
  c2 = Returned (fst (GetOrCreateTopic name descr w))
  /\ s2 = database (snd (GetOrCreateTopic name descr w)).
Proof.
  destruct w as [s clock fs]. cbn [faults database now]. intros ->.
  unfold step, GetOrCreateTopic.
  destruct (validateTopic name) as [err|]; [split; reflexivity|].
  unfold bind, wrap, ignore, BeginTx, QueryTopicID, ExecInsertTopic,
    LastInsertId, Commit, driver, ret, view, select_topic_id, insert_topic.
  cbn.
  destruct (List.find (fun t => String.eqb (topic_name t) name) (topics s))
    as [t|] eqn:Hfind; cbn.
  - split; reflexivity.
  - rewrite (find_none_existsb _ _ Hfind). cbn. split; reflexivity.
Qed.

Lemma insert_topic_unique (s s' : store) (clock id : Z) (name descr : string) :
  List.NoDup (List.map topic_name (topics s)) ->
  insert_topic s clock name descr = Some (s', id) ->
  List.NoDup (List.map topic_name (topics s')).
Proof.
  unfold insert_topic. intros Hnd.
  destruct (existsb (fun t => String.eqb (topic_name t) name) (topics s))
    eqn:Hex; [discriminate|].
  intros [= <- _]. cbn. rewrite List.map_app. cbn.
  apply NoDup_rev in Hnd. rewrite <- (rev_involutive (_ ++ _)%list).
  apply NoDup_rev. rewrite List.rev_app_distr. cbn.
  constructor; [|exact Hnd].
  rewrite <- in_rev. intros Hin. apply in_map_iff in Hin as (t & Hname & Hin).
  assert (existsb (fun t => String.eqb (topic_name t) name) (topics s) = true).
  { apply existsb_exists. exists t. split; [exact Hin|].
    rewrite Hname. apply String.eqb_refl. }
  congruence.
Qed.

(** In this model the topic names stay unique under every schedule: the
    calls never create two rows for one name. *)
Lemma run_unique (schedule : list nat) (clock : Z) (s : store)
    (calls : list call) :
  List.NoDup (List.map topic_name (topics s)) ->
  List.NoDup (List.map topic_name (topics (fst (run schedule clock s calls)))).
Proof.
  revert s calls. induction schedule as [|i later IH]; intros s calls Hnd.
  - exact Hnd.
  - cbn [run]. destruct (calls !! i) as [c|]; [|now apply IH].
    destruct (step s clock c) as [s' c'] eqn:Hstep. apply IH.
    unfold step in Hstep. destruct c as [name descr|name descr|r].
    + destruct (validateTopic name); [inversion Hstep; subst; exact Hnd|].
      destruct (select_topic_id s name); inversion Hstep; subst; exact Hnd.
    + destruct (insert_topic s clock name descr) as [[s1 id]|] eqn:Hins.
      * inversion Hstep; subst. eapply insert_topic_unique; eauto.
      * inversion Hstep; subst; exact Hnd.
    + inversion Hstep; subst; exact Hnd.
Qed.

(** C8, at the failing schedule.  Two calls with the same new name, both
    running their SELECT before either runs its INSERT: one row is
    created, the first call returns its id, and the second call fails on
    the UNIQUE constraint of topic_name, as nothing retries the lookup. *)
Theorem concurrent_creation_conflict :
  run [0; 1; 0; 1]%nat 0 empty_store [Ready "t" "d"; Ready "t" "d"]
  = (with_topic empty_store (mkTopic 1 "t" "d" 0),
     [Returned (Ok 1%Z);
      Returned (Err (Wrap "failed to insert topic" ErrConstraint))]).
Proof. reflexivity. Qed.

(** The same two calls one after the other both return the id of the
    one row. *)
Lemma serial_creation :
  run [0; 0; 1; 1]%nat 0 empty_store [Ready "t" "d"; Ready "t" "d"]
  = (with_topic empty_store (mkTopic 1 "t" "d" 0),
     [Returned (Ok 1%Z); Returned (Ok 1%Z)]).
Proof. reflexivity. Qed.

End Concurrent.

(** ** What each store operation does to the store, whatever the driver
    does *)

Section StoreEffects.
Import db store_props.

Ltac unfold_ops :=
  unfold bind, wrap, ignore, BeginTx, QueryTopicID, ExecInsertTopic,
    ExecInsertDevice, ExecInsertNotification, ExecUpdateStatus, LastInsertId,
    RowsAffected, Commit, driver, ret, throw, view.

Lemma select_after_insert (s s' : store) (clock id : Z) (name descr : string) :
  insert_topic s clock name descr = Some (s', id) ->
  select_topic_id s name = None
  /\ id = (topics_seq s + 1)%Z
  /\ s' = with_topic s (mkTopic id name descr clock)
  /\ select_topic_id s' name = Some id.
Proof.
  unfold insert_topic, select_topic_id.
  destruct (existsb (fun t => String.eqb (topic_name t) name) (topics s))
    eqn:Hex; [discriminate|].
  intros [= <- <-].
  assert (Hnone : List.find (fun t => String.eqb (topic_name t) name)
                    (topics s) = None).
  { destruct (List.find _ (topics s)) as [t|] eqn:Hf; [|reflexivity].
    apply find_some in Hf as [Hin Hname].
    assert (existsb (fun t => String.eqb (topic_name t) name) (topics s)
            = true) by (apply existsb_exists; eauto).
    congruence. }
  rewrite Hnone. repeat split. cbn [topics].
  clear Hex. induction (topics s) as [|t ts IH]; cbn.
  - now rewrite String.eqb_refl.
  - cbn in Hnone. destruct (String.eqb (topic_name t) name); [discriminate|].
    now apply IH.
Qed.

Lemma select_none_insert (s : store) (clock : Z) (name descr : string) :
  select_topic_id s name = None ->
  insert_topic s clock name descr
  = Some (with_topic s (mkTopic (topics_seq s + 1) name descr clock),
          (topics_seq s + 1)%Z).
Proof.
  unfold select_topic_id, insert_topic. intros Hsel.
  destruct (List.find (fun t => String.eqb (topic_name t) name) (topics s))
    eqn:Hf; [discriminate|].
  clear Hsel.
  assert (Hex : existsb (fun t => String.eqb (topic_name t) name) (topics s)
                = false).
  { induction (topics s) as [|t ts IH]; cbn in *; [reflexivity|].
    destruct (String.eqb (topic_name t) name); [discriminate|now apply IH]. }
  now rewrite Hex.
Qed.

Lemma GetOrCreateTopic_effect (name descr : string) (w w' : world)
    (r : result Z) :
  GetOrCreateTopic name descr w = (r, w') ->
  now w' = now w
  /\ match r with
     | Ok id =>
         validateTopic name = None
         /\ ((database w' = database w
              /\ select_topic_id (database w) name = Some id)
             \/ (select_topic_id (database w) name = None
                 /\ database w'
                    = with_topic (database w)
                        (mkTopic (topics_seq (database w) + 1) name descr
                           (now w))
                 /\ id = (topics_seq (database w) + 1)%Z))
     | Err _ => database w' = database w
     end.
Proof.
  destruct w as [s clock fs]. unfold GetOrCreateTopic.
  destruct (validateTopic name) as [err|] eqn:Hv.
  - intros [= <- <-]. split; reflexivity.
  - unfold_ops. cbn [database now faults].
    destruct (select_topic_id s name) as [id|] eqn:Hsel.
    + destruct fs as [|[] [|[] [|[] fs]]];
        cbn -[select_topic_id insert_topic]; rewrite ?Hsel;
        cbn -[select_topic_id insert_topic];
        intros [= <- <-]; cbn -[select_topic_id insert_topic]; auto.
    + pose proof (select_none_insert s clock name descr Hsel) as Hins.
      destruct fs as [|[] [|[] [|[] [|[] [|[] fs]]]]];
        cbn -[select_topic_id insert_topic]; rewrite ?Hsel;
        cbn -[select_topic_id insert_topic]; rewrite ?Hins;
        cbn -[select_topic_id insert_topic];
        intros [= <- <-]; cbn -[select_topic_id insert_topic]; auto 8.
Qed.

Lemma classic_in (id : string) (s : store) :
  In id (List.map device_id (devices s))
  \/ ~ In id (List.map device_id (devices s)).
Proof.
  destruct (in_dec string_dec id (List.map device_id (devices s))); tauto.
Qed.

Lemma insert_device_spec (s : store) (clock : Z) (id key : string) :
  (In id (List.map device_id (devices s)) ->
   insert_device s clock id key = None)
  /\ (~ In id (List.map device_id (devices s)) ->
      insert_device s clock id key
      = Some (with_device s (mkDevice id key clock))).
Proof.
  unfold insert_device.
  destruct (existsb (fun d => String.eqb (device_id d) id) (devices s))
    eqn:Hex.
  - split; [reflexivity|]. intros Hnot. exfalso. apply Hnot.
    apply existsb_exists in Hex as (d & Hin & Heq).
    apply String.eqb_eq in Heq. subst id. now apply in_map.
  - split; [|reflexivity]. intros Hin.
    apply in_map_iff in Hin as (d & Hid & Hin).
    assert (existsb (fun d => String.eqb (device_id d) id) (devices s) = true).
    { apply existsb_exists. exists d. split; [exact Hin|].
      rewrite Hid. apply String.eqb_refl. }
    congruence.
Qed.

Lemma validateDevice_spec (id key : string) :
  (validateDevice id key = Some ErrEmptyDeviceID <-> id = "")
  /\ (validateDevice id key = Some ErrEmptyPublicKey <-> id <> "" /\ key = "")
  /\ (validateDevice id key = None <-> id <> "" /\ key <> "")
  /\ (forall err, validateDevice id key = Some err ->
                  err = ErrEmptyDeviceID \/ err = ErrEmptyPublicKey).
Proof.
  unfold validateDevice.
  destruct (String.eqb_spec id "") as [->|Hid];
    [|destruct (String.eqb_spec key "") as [->|Hkey]];
    repeat split; try congruence; try tauto;
    try (intros [? ?]; congruence); try (intros ? [= <-]; tauto).
Qed.

(** X1.  InsertDevice.  When it returns nil, the id and the key are not empty,
    the id was not in the table, and the store is the old one with the
    row appended.  When it returns an error the store is unchanged,
    whichever call failed; the error is ErrEmptyDeviceID exactly for an
    empty id, and ErrEmptyPublicKey exactly for an empty key with a
    non-empty id. *)
Theorem InsertDevice_outcome (id key : string) (w : world) :
  match InsertDevice id key w with
  | (Ok _, w') =>
      id <> "" /\ key <> ""
      /\ ~ In id (List.map device_id (devices (database w)))
      /\ database w' = with_device (database w) (mkDevice id key (now w))
  | (Err e, w') =>
      database w' = database w
      /\ (e = ErrEmptyDeviceID <-> id = "")
      /\ (e = ErrEmptyPublicKey <-> id <> "" /\ key = "")
  end.
Proof.
  destruct w as [s clock fs]. unfold InsertDevice.
  destruct (validateDevice id key) as [err|] eqn:Hv;
    destruct (validateDevice_spec id key) as (H1 & H2 & H3 & H4).
  - cbn. split; [reflexivity|].
    destruct (H4 err Hv) as [-> | ->].
    + apply H1 in Hv. subst id.
      repeat split; try tauto; try discriminate;
        try (intros [? _]; congruence); try (intros ->; congruence).
    + apply H2 in Hv as [Hid ->].
      repeat split; try tauto; try discriminate;
        try (intros [? _]; congruence); try (intros ->; congruence).
  - destruct (proj1 H3 Hv) as [Hid Hkey].
    destruct (insert_device_spec s clock id key) as [Hdup Hnew].
    unfold_ops. cbn [database now faults].
    destruct (classic_in id s) as [Hin|Hnot].
    + specialize (Hdup Hin).
      destruct fs as [|[] [|[] [|[] fs]]]; cbn -[insert_device];
        rewrite ?Hdup; cbn -[insert_device];
        repeat split; try discriminate; try tauto;
        try (intros [_ ?]; congruence); try congruence.
    + specialize (Hnew Hnot).
      destruct fs as [|[] [|[] [|[] fs]]]; cbn -[insert_device];
        rewrite ?Hnew; cbn -[insert_device];
        repeat split; try discriminate; try tauto;
        try (intros [_ ?]; congruence); try congruence.
Qed.

(** X2.  InsertDevice with no driver failure and valid arguments: an id that
    is in the table already is refused with the constraint error of the
    INSERT and the store stays as it was; a new id is inserted with the
    current time as registration date. *)
Theorem InsertDevice_duplicate (id key : string) (w : world) :
  faults w = [] -> id <> "" -> key <> "" ->
  (In id (List.map device_id (devices (database w))) ->
   InsertDevice id key w
   = (Err (Wrap "failed to insert device" ErrConstraint), w))
  /\ (~ In id (List.map device_id (devices (database w))) ->
      InsertDevice id key w
      = (Ok tt,
         mkWorld (with_device (database w) (mkDevice id key (now w)))
           (now w) [])).
Proof.
  destruct w as [s clock fs]. cbn [faults database now]. intros -> Hid Hkey.
  unfold InsertDevice.
  rewrite (proj2 (proj1 (proj2 (proj2 (validateDevice_spec id key))))
             (conj Hid Hkey)).
  destruct (insert_device_spec s clock id key) as [Hdup Hnew].
  unfold_ops. cbn [database now faults]. split; intros H.
  - apply Hdup in H. cbn -[insert_device]. rewrite H. reflexivity.
  - apply Hnew in H. cbn -[insert_device]. rewrite H. reflexivity.
Qed.

Lemma InsertDevice_duplicate_witness :
  InsertDevice "device1" "key2"
    (mkWorld (with_device empty_store (mkDevice "device1" "key1" 0)) 3 [])
  = (Err (Wrap "failed to insert device" ErrConstraint),
     mkWorld (with_device empty_store (mkDevice "device1" "key1" 0)) 3 [])
  /\ InsertDevice "device1" "key1" (mkWorld empty_store 0 [])
     = (Ok tt,
        mkWorld (with_device empty_store (mkDevice "device1" "key1" 0)) 0 []).
Proof.
  split.
  - apply (proj1 (InsertDevice_duplicate "device1" "key2"
                    (mkWorld
                       (with_device empty_store (mkDevice "device1" "key1" 0))
                       3 [])
                    eq_refl ltac:(discriminate) ltac:(discriminate))).
    left. reflexivity.
  - apply (proj2 (InsertDevice_duplicate "device1" "key1"
                    (mkWorld empty_store 0 [])
                    eq_refl ltac:(discriminate) ltac:(discriminate))).
    intros [].
Defined.

(** X3.  GetOrCreateTopic, whatever the driver does.  When it returns an id,
    the name is valid, a lookup of the name in the resulting store gives
    that id, and the store is either unchanged or the old one with one
    row for the name appended.  When it returns an error the store is
    unchanged. *)
Theorem GetOrCreateTopic_atomic (name descr : string) (w : world) :
  match GetOrCreateTopic name descr w with
  | (Ok id, w') =>
      validateTopic name = None
      /\ select_topic_id (database w') name = Some id
      /\ (database w' = database w
          \/ (select_topic_id (database w) name = None
              /\ database w'
                 = with_topic (database w) (mkTopic id name descr (now w))))
  | (Err _, w') => database w' = database w
  end.
Proof.
  destruct (GetOrCreateTopic name descr w) as [[id|e] w'] eqn:HG;
    apply GetOrCreateTopic_effect in HG as [_ HG]; [|exact HG].
  destruct HG as [Hv [[Hdb Hsel]|(Hsel & Hdb & ->)]].
  - rewrite Hdb. tauto.
  - split; [exact Hv|]. rewrite Hdb. split; [|right; tauto].
    pose proof (select_none_insert (database w) (now w) name descr Hsel) as Hi.
    now apply select_after_insert in Hi.
Qed.

Lemma markAs_effect (msg : string) (new : NotificationStatus) (id : Z)
    (w : world) :
  match markAs msg new id w with
  | (Ok _, w') => database w' = with_status (database w) new id
  | (Err _, w') => database w' = database w
  end.
Proof.
  destruct w as [s clock fs]. unfold markAs, with_status. unfold_ops.
  cbn [database now faults].
  destruct (update_status s new id NotificationStatusInput) as [s' rows] eqn:Hu.
  assert (Hzero : rows = 0%Z -> s = s').
  { intros ->. pose proof (update_status_no_row s new id) as Hs.
    rewrite Hu in Hs. specialize (Hs eq_refl).
    rewrite (update_status_settled s new id Hs) in Hu. congruence. }
  destruct fs as [|[] [|[] [|[] [|[] fs]]]]; cbn -[update_status];
    rewrite ?Hu; cbn -[update_status]; try reflexivity;
    destruct (Z.eqb_spec rows 0) as [Hr|Hr]; cbn; auto.
Qed.


(** *** InsertNotification *)

Lemma validateNotification_spec (notif : exchange.Notification) :
  (validateNotification notif = Some ErrEmptyTopic
   <-> exchange.Topic notif = "")
  /\ (validateNotification notif = Some ErrTopicTooLong
      <-> (255 < String.length (exchange.Topic notif))%nat)
  /\ (validateNotification notif = Some ErrEmptyMessage
      <-> validateTopic (exchange.Topic notif) = None
          /\ exchange.Message notif = "")
  /\ (validateNotification notif = None
      <-> validateTopic (exchange.Topic notif) = None
          /\ exchange.Message notif <> "").
Proof.
  unfold validateNotification.
  rewrite <- validateTopic_empty, <- validateTopic_too_long.
  unfold validateTopic.
  destruct (String.eqb (exchange.Topic notif) "");
    [|destruct (MaxTopicNameLength <? String.length (exchange.Topic notif))%nat;
      [|destruct (String.eqb_spec (exchange.Message notif) "")]];
    repeat split; try congruence; try tauto;
    try (intros [? ?]; congruence).
Qed.

Lemma InsertNotification_effect (notif : exchange.Notification)
    (w w' : world) (r : result Z) :
  validateNotification notif = None ->
  InsertNotification notif w = (r, w') ->
  exists mid,
    (mid = database w
     \/ (select_topic_id (database w) (exchange.Topic notif) = None
         /\ mid = with_topic (database w)
                    (mkTopic (topics_seq (database w) + 1)
                       (exchange.Topic notif) "" (now w))))
    /\ match r with
       | Ok nid =>
           exists tid,
             select_topic_id mid (exchange.Topic notif) = Some tid
             /\ nid = (notifications_seq (database w) + 1)%Z
             /\ database w'
                = with_notification mid
                    (mkNotificationRow nid tid (now w)
                       (exchange.Message notif)
                       (Marshal (exchange.Metadata notif))
                       NotificationStatusInput)
       | Err _ => database w' = mid
       end.
Proof.
  intros Hv. destruct w as [s clock fs]. unfold InsertNotification.
  rewrite Hv.
  unfold bind, wrap, BeginTx, ExecInsertNotification, LastInsertId, Commit,
    driver, ret, view.
  cbn [database now faults].
  assert (Hrest : forall w1,
            database w1 = s -> now w1 = clock ->
            (let '(rg, w2) := GetOrCreateTopic (exchange.Topic notif) "" w1 in
             exists mid,
               (mid = s
                \/ (select_topic_id s (exchange.Topic notif) = None
                    /\ mid = with_topic s
                               (mkTopic (topics_seq s + 1)
                                  (exchange.Topic notif) "" clock)))
               /\ database w2 = mid /\ now w2 = clock
               /\ match rg with
                  | Ok tid =>
                      select_topic_id mid (exchange.Topic notif) = Some tid
                  | Err _ => True
                  end)).
  { intros w1 Hdb Hnow.
    destruct (GetOrCreateTopic (exchange.Topic notif) "" w1) as [rg w2] eqn:HG.
    apply GetOrCreateTopic_effect in HG as [Hnow2 HG].
    rewrite Hdb, Hnow in HG. rewrite Hnow in Hnow2.
    destruct rg as [tid|e].
    - destruct HG as [_ [[Hdb2 Hsel]|(Hsel & Hdb2 & ->)]].
      + exists s. rewrite Hdb2. tauto.
      + eexists. split; [right; split; [exact Hsel|reflexivity]|].
        rewrite Hdb2. repeat split; [exact Hnow2|].
        pose proof (select_none_insert s clock (exchange.Topic notif) ""
                      Hsel) as Hi.
        now apply select_after_insert in Hi.
    - exists s. tauto. }
  destruct fs as [|[] fs]; cbn -[GetOrCreateTopic insert_notification].
  - specialize (Hrest (mkWorld s clock []) eq_refl eq_refl).
    destruct (GetOrCreateTopic (exchange.Topic notif) "" (mkWorld s clock []))
      as [[tid|e] [s2 clock2 fs2]];
      destruct Hrest as (mid & Hmid & Hdb & Hnow & Hsel);
      cbn [database now] in Hdb, Hnow; subst s2 clock2.
    + destruct fs2 as [|[] [|[] [|[] fs2]]];
        cbn; intros [= <- <-]; exists mid; (split; [exact Hmid|]);
        cbn; try reflexivity; exists tid;
        (split; [exact Hsel|]); (split; [|reflexivity]);
        destruct Hmid as [->|[_ ->]]; reflexivity.
    + intros [= <- <-]. exists mid. split; [exact Hmid|reflexivity].
  - intros [= <- <-]. exists s. split; [now left|reflexivity].
  - specialize (Hrest (mkWorld s clock fs) eq_refl eq_refl).
    destruct (GetOrCreateTopic (exchange.Topic notif) "" (mkWorld s clock fs))
      as [[tid|e] [s2 clock2 fs2]];
      destruct Hrest as (mid & Hmid & Hdb & Hnow & Hsel);
      cbn [database now] in Hdb, Hnow; subst s2 clock2.
    + destruct fs2 as [|[] [|[] [|[] fs2]]];
        cbn; intros [= <- <-]; exists mid; (split; [exact Hmid|]);
        cbn; try reflexivity; exists tid;
        (split; [exact Hsel|]); (split; [|reflexivity]);
        destruct Hmid as [->|[_ ->]]; reflexivity.
    + intros [= <- <-]. exists mid. split; [exact Hmid|reflexivity].
Qed.

(** X5.  InsertNotification, whatever the driver does.  When it returns an
    id, the id is the next one of the notifications table, one row in INPUT
    with the message and the marshalled metadata was appended under the
    topic that a lookup of the topic name now gives, and the topics table
    is unchanged or has one new row for the name.  When it returns an
    error, no notification row was added and the devices are unchanged,
    and the topics table is unchanged or has one new row for the name. *)
Theorem InsertNotification_outcome (notif : exchange.Notification)
    (w : world) :
  match InsertNotification notif w with
  | (Ok nid, w') =>
      exists tid,
        nid = (notifications_seq (database w) + 1)%Z
        /\ select_topic_id (database w') (exchange.Topic notif) = Some tid
        /\ notifications (database w')
           = (notifications (database w)
              ++ [mkNotificationRow nid tid (now w) (exchange.Message notif)
                    (Marshal (exchange.Metadata notif))
                    NotificationStatusInput])%list
        /\ devices (database w') = devices (database w)
        /\ (topics (database w') = topics (database w)
            \/ topics (database w')
               = (topics (database w)
                  ++ [mkTopic tid (exchange.Topic notif) "" (now w)])%list)
  | (Err _, w') =>
      notifications (database w') = notifications (database w)
      /\ notifications_seq (database w') = notifications_seq (database w)
      /\ devices (database w') = devices (database w)
      /\ (topics (database w') = topics (database w)
          \/ exists tid,
               select_topic_id (database w) (exchange.Topic notif) = None
               /\ topics (database w')
                  = (topics (database w)
                     ++ [mkTopic tid (exchange.Topic notif) "" (now w)])%list)
  end.
Proof.
  destruct (validateNotification notif) as [err|] eqn:Hv.
  - unfold InsertNotification. rewrite Hv. cbn. tauto.
  - destruct (InsertNotification notif w) as [[nid|e] w'] eqn:HI;
      apply (InsertNotification_effect notif w w' _ Hv) in HI
        as (mid & Hmid & HI).
    + destruct HI as (tid & Hsel & -> & ->). exists tid. cbn.
      split; [reflexivity|]. split; [exact Hsel|].
      destruct Hmid as [->|[Hnone ->]]; cbn.
      * repeat split. now left.
      * repeat split. right.
        pose proof (select_none_insert (database w) (now w)
                      (exchange.Topic notif) "" Hnone) as Hi.
        apply select_after_insert in Hi as (_ & _ & _ & Hsel').
        rewrite Hsel' in Hsel. now inversion Hsel.
    + rewrite HI. destruct Hmid as [->|[Hnone ->]]; cbn.
      * repeat split. now left.
      * repeat split. right. eexists. split; [exact Hnone|reflexivity].
Qed.

Lemma InsertNotification_no_sentinel (notif : exchange.Notification)
    (w : world) :
  validateNotification notif = None ->
  no_sentinel (fst (InsertNotification notif w)).
Proof.
  intros Hv. unfold InsertNotification. rewrite Hv.
  apply bind_wrap_no_sentinel. intros tx w1.
  apply bind_wrap_no_sentinel. intros topicID w2. cbv zeta.
  apply bind_wrap_no_sentinel. intros [tx1 res] w3.
  apply bind_wrap_no_sentinel. intros nid w4.
  apply bind_wrap_no_sentinel. intros _ w5. exact I.
Qed.

(** X6.  InsertNotification returns the bare validation errors for the
    invalid notifications only (every later error is wrapped): the topic
    is checked first, then the message; and an invalid notification leaves
    the store and the driver untouched. *)
Theorem InsertNotification_validation (notif : exchange.Notification)
    (w : world) :
  (fst (InsertNotification notif w) = Err ErrEmptyTopic
   <-> exchange.Topic notif = "")
  /\ (fst (InsertNotification notif w) = Err ErrTopicTooLong
      <-> (255 < String.length (exchange.Topic notif))%nat)
  /\ (fst (InsertNotification notif w) = Err ErrEmptyMessage
      <-> exchange.Topic notif <> ""
          /\ (String.length (exchange.Topic notif) <= 255)%nat
          /\ exchange.Message notif = "")
  /\ (validateNotification notif <> None -> snd (InsertNotification notif w) = w).
Proof.
  destruct (validateNotification_spec notif) as (H1 & H2 & H3 & H4).
  assert (H3' : validateNotification notif = Some ErrEmptyMessage
                <-> exchange.Topic notif <> ""
                    /\ (String.length (exchange.Topic notif) <= 255)%nat
                    /\ exchange.Message notif = "").
  { rewrite H3, validateTopic_valid. tauto. }
  rewrite <- H3', <- H1, <- H2. clear H1 H2 H3 H3' H4.
  destruct (validateNotification notif) as [err|] eqn:Hv.
  - unfold InsertNotification. rewrite Hv. cbn. repeat split; congruence.
  - pose proof (InsertNotification_no_sentinel notif w Hv) as Hns.
    repeat split; try discriminate; try congruence;
      intros H; rewrite H in Hns; destruct Hns.
Qed.

End StoreEffects.

(** ** The invariant of the store *)

Section StoreInvariant.
Import db store_props.

Lemma NoDup_snoc {A} (l : list A) (x : A) :
  List.NoDup l -> ~ In x l -> List.NoDup (l ++ [x]).
Proof.
  induction l as [|a l IH]; cbn; intros Hnd Hnot.
  - constructor; [intros []|constructor].
  - inversion Hnd as [|? ? Ha Hl]; subst. constructor.
    + intros Hin. apply in_app_or in Hin as [Hin|[<-|[]]]; [tauto|].
      apply Hnot. now left.
    + apply IH; [exact Hl|]. intros Hin. apply Hnot. now right.
Qed.

Lemma select_none_fresh (s : store) (name : string) :
  select_topic_id s name = None ->
  ~ In name (List.map topic_name (topics s)).
Proof.
  unfold select_topic_id. intros Hsel Hin.
  apply in_map_iff in Hin as (t & Hname & Hin).
  destruct (List.find (fun t => String.eqb (topic_name t) name) (topics s))
    eqn:Hf; [discriminate|].
  apply (find_none _ _ Hf) in Hin. rewrite Hname, String.eqb_refl in Hin.
  discriminate.
Qed.

Lemma select_some_in (s : store) (name : string) (id : Z) :
  select_topic_id s name = Some id ->
  In id (List.map topic_id (topics s)).
Proof.
  unfold select_topic_id.
  destruct (List.find (fun t => String.eqb (topic_name t) name) (topics s))
    as [t|] eqn:Hf; [|discriminate].
  intros [= <-]. apply find_some in Hf as [Hin _]. now apply in_map.
Qed.

Lemma above_counter_fresh {A} (key : A -> Z) (rows : list A) (counter : Z) :
  Forall (fun r => (0 < key r <= counter)%Z) rows ->
  ~ In (counter + 1)%Z (List.map key rows).
Proof.
  intros Hall Hin. apply in_map_iff in Hin as (r & Hkey & Hin).
  rewrite List.Forall_forall in Hall. specialize (Hall r Hin). lia.
Qed.

Lemma range_grows {A} (key : A -> Z) (rows : list A) (counter : Z) :
  Forall (fun r => (0 < key r <= counter)%Z) rows ->
  Forall (fun r => (0 < key r <= counter + 1)%Z) rows.
Proof. apply List.Forall_impl. intros r Hr. lia. Qed.

Lemma wf_with_device (s : store) (d : device) :
  wf_store s -> ~ In (device_id d) (List.map device_id (devices s)) ->
  wf_store (with_device s d).
Proof.
  intros [] Hnew. constructor; cbn; try assumption.
  rewrite List.map_app. now apply NoDup_snoc.
Qed.

Lemma wf_with_topic (s : store) (name descr : string) (clock : Z) :
  wf_store s -> select_topic_id s name = None ->
  wf_store (with_topic s (mkTopic (topics_seq s + 1) name descr clock)).
Proof.
  intros [Hd Htn Hti Htr Hts Hni Hnr Hns Hfk] Hsel.
  constructor; cbn; try assumption.
  - rewrite List.map_app. apply NoDup_snoc; [assumption|].
    now apply select_none_fresh.
  - rewrite List.map_app. apply NoDup_snoc; [assumption|].
    now apply above_counter_fresh.
  - apply List.Forall_app. split; [now apply range_grows|].
    constructor; [cbn; lia|constructor].
  - lia.
  - eapply List.Forall_impl; [|exact Hfk]. cbn. intros n Hn.
    rewrite List.map_app. apply in_or_app. now left.
Qed.

Lemma wf_with_notification (s : store) (n : notification) :
  wf_store s ->
  notification_id n = (notifications_seq s + 1)%Z ->
  In (notification_topic n) (List.map topic_id (topics s)) ->
  wf_store (with_notification s n).
Proof.
  intros [Hd Htn Hti Htr Hts Hni Hnr Hns Hfk] Hid Htopic.
  constructor; cbn; try assumption.
  - rewrite List.map_app. apply NoDup_snoc; [assumption|].
    cbn. rewrite Hid. now apply above_counter_fresh.
  - rewrite Hid. apply List.Forall_app. split; [now apply range_grows|].
    constructor; [lia|constructor].
  - lia.
  - apply List.Forall_app. split; [exact Hfk|]. constructor; [exact Htopic|].
    constructor.
Qed.

Lemma update_keeps_ids (new : NotificationStatus) (id : Z)
    (rows : list notification) :
  List.map notification_id
    (List.map (fun n => if matches id NotificationStatusInput n
                        then set_status new n else n) rows)
  = List.map notification_id rows.
Proof.
  rewrite List.map_map. apply List.map_ext. intros n.
  now destruct (matches id NotificationStatusInput n).
Qed.

Lemma wf_with_status (s : store) (new : NotificationStatus) (id : Z) :
  wf_store s -> wf_store (with_status s new id).
Proof.
  intros [Hd Htn Hti Htr Hts Hni Hnr Hns Hfk]. unfold with_status.
  constructor; cbn; try assumption.
  - now rewrite update_keeps_ids.
  - rewrite List.Forall_map. eapply List.Forall_impl; [|exact Hnr].
    intros n Hn. destruct (matches id NotificationStatusInput n); exact Hn.
  - rewrite List.Forall_map. eapply List.Forall_impl; [|exact Hfk].
    intros n Hn. destruct (matches id NotificationStatusInput n); exact Hn.
Qed.

Lemma InsertDevice_db (id key : string) (w : world) :
  database (snd (InsertDevice id key w)) = database w
  \/ (~ In id (List.map device_id (devices (database w)))
      /\ database (snd (InsertDevice id key w))
         = with_device (database w) (mkDevice id key (now w))).
Proof.
  destruct w as [s clock fs]. unfold InsertDevice.
  destruct (validateDevice id key); [now left|].
  destruct (insert_device_spec s clock id key) as [Hdup Hnew].
  unfold bind, wrap, BeginTx, ExecInsertDevice, Commit, driver, ret, view.
  cbn [database now faults].
  destruct (classic_in id s) as [Hin|Hnot].
  - specialize (Hdup Hin).
    destruct fs as [|[] [|[] [|[] fs]]]; cbn -[insert_device];
      rewrite ?Hdup; cbn -[insert_device]; now left.
  - specialize (Hnew Hnot).
    destruct fs as [|[] [|[] [|[] fs]]]; cbn -[insert_device];
      rewrite ?Hnew; cbn -[insert_device]; tauto.
Qed.

(** X7.  Every operation keeps the store well formed, whatever the driver
    does: ids and topic names stay unique, ids stay between 1 and the
    counter of their table, and every notification stays under a topic
    that exists. *)
Theorem operations_keep_wf (w : world) :
  wf_store (database w) ->
  (forall id key, wf_store (database (snd (InsertDevice id key w))))
  /\ (forall name descr,
        wf_store (database (snd (GetOrCreateTopic name descr w))))
  /\ (forall notif, wf_store (database (snd (InsertNotification notif w))))
  /\ (forall id, wf_store (database (snd (MarkNotificationSent id w))))
  /\ (forall id, wf_store (database (snd (MarkNotificationError id w)))).
Proof.
  intros Hwf. split; [|split; [|split; [|split]]].
  - intros id key. destruct (InsertDevice_db id key w) as [->|[Hnew ->]];
      [exact Hwf|]. now apply wf_with_device.
  - intros name descr.
    destruct (GetOrCreateTopic name descr w) as [[id|e] w'] eqn:HG;
      apply GetOrCreateTopic_effect in HG as [_ HG]; cbn [snd].
    + destruct HG as [_ [[-> _]|(Hsel & -> & _)]]; [exact Hwf|].
      now apply wf_with_topic.
    + now rewrite HG.
  - intros notif. destruct (validateNotification notif) as [err|] eqn:Hv.
    + unfold InsertNotification. now rewrite Hv.
    + destruct (InsertNotification notif w) as [r w'] eqn:HI. cbn [snd].
      apply (InsertNotification_effect notif w w' r Hv) in HI
        as (mid & Hmid & HI).
      assert (Hwfmid : wf_store mid).
      { destruct Hmid as [->|[Hsel ->]]; [exact Hwf|].
        now apply wf_with_topic. }
      assert (Hseq : notifications_seq mid = notifications_seq (database w))
        by (destruct Hmid as [->|[_ ->]]; reflexivity).
      destruct r as [nid|e]; [|now rewrite HI].
      destruct HI as (tid & Hsel & -> & ->).
      apply wf_with_notification; [exact Hwfmid|cbn; now rewrite Hseq|].
      cbn. eapply select_some_in; eassumption.
  - intros id. rewrite MarkNotificationSent_markAs.
    pose proof (markAs_effect "failed to mark notification as sent"
                  NotificationStatusSent id w) as He.
    destruct (markAs _ _ id w) as [[u|e] w']; cbn [snd]; rewrite He;
      [now apply wf_with_status|exact Hwf].
  - intros id. rewrite MarkNotificationError_markAs.
    pose proof (markAs_effect "failed to mark notification as error"
                  NotificationStatusError id w) as He.
    destruct (markAs _ _ id w) as [[u|e] w']; cbn [snd]; rewrite He;
      [now apply wf_with_status|exact Hwf].
Qed.

Lemma wf_empty_store : wf_store empty_store.
Proof. constructor; cbn; try constructor; lia. Defined.

Lemma operations_keep_wf_witness :
  wf_store empty_store
  /\ wf_store
       (database
          (snd (InsertNotification (exchange.mkNotification "t" None "m")
                  (mkWorld empty_store 0 [false; false; true])))).
Proof.
  split; [exact wf_empty_store|].
  exact (proj1 (proj2 (proj2 (operations_keep_wf
                                (mkWorld empty_store 0 [false; false; true])
                                wf_empty_store)))
           (exchange.mkNotification "t" None "m")).
Defined.

(** *** An insertion followed by a mark *)

Lemma bind_ok {A B} (c : M A) (k : A -> M B) (w w1 : world) (a : A) :
  c w = (Ok a, w1) -> bind c k w = k a w1.
Proof. intros H. unfold bind. now rewrite H. Qed.

Lemma wrap_ok {A} (msg : string) (c : M A) (w w1 : world) (a : A) :
  c w = (Ok a, w1) -> wrap msg c w = (Ok a, w1).
Proof. intros H. unfold wrap. now rewrite H. Qed.

Lemma GetOrCreateTopic_run (name descr : string) (s : store) (clock : Z) :
  validateTopic name = None ->
  GetOrCreateTopic name descr (mkWorld s clock [])
  = match select_topic_id s name with
    | Some id => (Ok id, mkWorld s clock [])
    | None =>
        (Ok (topics_seq s + 1)%Z,
         mkWorld (with_topic s (mkTopic (topics_seq s + 1) name descr clock))
           clock [])
    end.
Proof.
  intros Hv. unfold GetOrCreateTopic. rewrite Hv.
  unfold bind, wrap, ignore, BeginTx, QueryTopicID, ExecInsertTopic,
    LastInsertId, Commit, driver, ret, view.
  cbn -[select_topic_id insert_topic].
  destruct (select_topic_id s name) as [id|] eqn:Hsel;
    cbn -[select_topic_id insert_topic]; [reflexivity|].
  now rewrite (select_none_insert s clock name descr Hsel).
Qed.

Lemma InsertNotification_run (notif : exchange.Notification) (s : store)
    (clock : Z) :
  validateNotification notif = None ->
  exists tid mid,
    (select_topic_id s (exchange.Topic notif) = Some tid /\ mid = s
     \/ select_topic_id s (exchange.Topic notif) = None
        /\ tid = (topics_seq s + 1)%Z
        /\ mid = with_topic s (mkTopic tid (exchange.Topic notif) "" clock))
    /\ InsertNotification notif (mkWorld s clock [])
       = (Ok (notifications_seq s + 1)%Z,
          mkWorld
            (with_notification mid
               (mkNotificationRow (notifications_seq s + 1) tid clock
                  (exchange.Message notif)
                  (Marshal (exchange.Metadata notif))
                  NotificationStatusInput))
            clock []).
Proof.
  intros Hv.
  assert (Hvt : validateTopic (exchange.Topic notif) = None)
    by (now apply validateNotification_spec in Hv).
  unfold InsertNotification. rewrite Hv.
  erewrite bind_ok by (apply wrap_ok; reflexivity).
  pose proof (GetOrCreateTopic_run (exchange.Topic notif) "" s clock Hvt)
    as HG.
  destruct (select_topic_id s (exchange.Topic notif)) as [tid|] eqn:Hsel.
  - exists tid, s. split; [now left|].
    erewrite bind_ok by (apply wrap_ok; exact HG). reflexivity.
  - eexists _, _. split; [right; split; [reflexivity|split; reflexivity]|].
    erewrite bind_ok by (apply wrap_ok; exact HG). reflexivity.
Qed.

Lemma update_fresh_row (s : store) (n : notification) :
  Forall (fun r => (0 < notification_id r <= notifications_seq s)%Z)
    (notifications s) ->
  notification_id n = (notifications_seq s + 1)%Z ->
  status n = NotificationStatusInput ->
  notifications
    (fst (update_status (with_notification s n) NotificationStatusSent
            (notification_id n) NotificationStatusInput))
  = (notifications s ++ [set_status NotificationStatusSent n])%list.
Proof.
  intros Hall Hid Hst. cbn. rewrite List.map_app. cbn.
  assert (Hn : matches (notification_id n) NotificationStatusInput n = true)
    by (apply matches_true; tauto).
  rewrite Hn. f_equal.
  apply (update_rows_settled NotificationStatusSent (notification_id n)).
  intros r Hr. apply matches_settled. intros Heq.
  rewrite List.Forall_forall in Hall. specialize (Hall r Hr). lia.
Qed.

(** X8.  With no driver failure and a store that is well formed, a valid
    notification is inserted in INPUT under an id that is positive and
    new to the table; marking that id as sent then changes the status of
    the new row and leaves every older row as it was. *)
Theorem InsertNotification_then_sent (notif : exchange.Notification)
    (w : world) :
  wf_store (database w) -> faults w = [] ->
  validateNotification notif = None ->
  exists nid tid w1 w2,
    InsertNotification notif w = (Ok nid, w1)
    /\ (0 < nid)%Z
    /\ ~ In nid (List.map notification_id (notifications (database w)))
    /\ notifications (database w1)
       = (notifications (database w)
          ++ [mkNotificationRow nid tid (now w) (exchange.Message notif)
                (Marshal (exchange.Metadata notif))
                NotificationStatusInput])%list
    /\ MarkNotificationSent nid w1 = (Ok tt, w2)
    /\ notifications (database w2)
       = (notifications (database w)
          ++ [mkNotificationRow nid tid (now w) (exchange.Message notif)
                (Marshal (exchange.Metadata notif))
                NotificationStatusSent])%list.
Proof.
  destruct w as [s clock fs]. cbn [database faults now]. intros Hwf -> Hv.
  destruct (InsertNotification_run notif s clock Hv)
    as (tid & mid & Hmid & Hrun).
  assert (Hrows : notifications mid = notifications s
                  /\ notifications_seq mid = notifications_seq s)
    by (destruct Hmid as [[_ ->]|(_ & _ & ->)]; split; reflexivity).
  destruct Hrows as [Hrows Hseq].
  destruct Hwf as [Hd Htn Hti Htr Hts Hni Hnr Hns Hfk].
  eexists _, tid, _, _. split; [exact Hrun|].
  split; [lia|]. split; [now apply above_counter_fresh|].
  split; [cbn; now rewrite Hrows|].
  rewrite MarkNotificationSent_markAs, markAs_no_fault. split; [reflexivity|].
  cbn [database].
  rewrite <- Hrows.
  apply (update_fresh_row mid
           (mkNotificationRow (notifications_seq s + 1) tid clock
              (exchange.Message notif) (Marshal (exchange.Metadata notif))
              NotificationStatusInput)).
  - now rewrite Hrows, Hseq.
  - cbn. now rewrite Hseq.
  - reflexivity.
Qed.

Lemma InsertNotification_then_sent_witness :
  exists nid tid w1 w2,
    InsertNotification (exchange.mkNotification "t" None "m")
      (mkWorld empty_store 0 [])
    = (Ok nid, w1)
    /\ (0 < nid)%Z
    /\ MarkNotificationSent nid w1 = (Ok tt, w2)
    /\ notifications (database w2)
       = [mkNotificationRow nid tid 0 "m" JSONNull NotificationStatusSent].
Proof.
  destruct (InsertNotification_then_sent
              (exchange.mkNotification "t" None "m")
              (mkWorld empty_store 0 []) wf_empty_store eq_refl eq_refl)
    as (nid & tid & w1 & w2 & H1 & H2 & _ & _ & H3 & H4).
  exists nid, tid, w1, w2. repeat split; assumption.
Defined.

End StoreInvariant.

(** ** More on the parser *)

Section ParserMore.
Import Strings exchange spec.

Lemma cleanHead_app (a b : list string) :
  cleanHead (a ++ b) = (cleanHead a ++ cleanHead b)%list.
Proof. unfold cleanHead. apply List.filter_app. Qed.

Lemma cleanHead_In (head : list string) (line : string) :
  In line (cleanHead head)
  <-> In line head /\ line <> "" /\ isComment line = false.
Proof.
  unfold cleanHead. rewrite filter_In.
  destruct (isComment line) eqn:Hc;
    destruct (String.eqb_spec line "") as [He|Hne]; cbn;
    (split;
     [intros [? ?]; try discriminate; auto
     |intros (? & ? & ?); try discriminate; try contradiction; auto]).
Qed.

Lemma spec_header_app (pre post : list string) :
  (forall line, In line pre -> isRule line = false) ->
  spec_header (pre ++ post) = (pre ++ spec_header post)%list
  /\ spec_body (pre ++ post) = spec_body post.
Proof.
  unfold spec_body. induction pre as [|line pre IH]; cbn; intros Hno.
  - split; reflexivity.
  - rewrite (Hno line (or_introl eq_refl)).
    destruct IH as [IH1 IH2]; [intros l Hl; apply Hno; now right|].
    now rewrite IH1, IH2.
Qed.

Lemma Join_empty (elems : list string) :
  Join elems newline = "" <-> elems = [] \/ elems = [""].
Proof.
  destruct elems as [|x [|y rest]]; cbn.
  - tauto.
  - split; [intros ->; now right|]. intros [H|H]; congruence.
  - split; [destruct x; discriminate|]. intros [H|H]; discriminate.
Qed.

(** X11.  A parsed notification.  Its topic is never empty and never a comment
    line, so the store never refuses it for an empty topic; its message is
    empty exactly when the body is one empty line (a file that ends right
    after the line feed of the separator), and the store then refuses it
    with ErrEmptyMessage unless the topic is too long. *)
Theorem parsed_notification_validation (lines : list string)
    (n : Notification) :
  parse lines = Ok n ->
  Topic n <> "" /\ isComment (Topic n) = false
  /\ In (Topic n) lines
  /\ (Message n = "" <-> messageOf lines = [""])
  /\ db.validateNotification n <> Some db.ErrEmptyTopic
  /\ (db.validateNotification n = Some db.ErrEmptyMessage
      <-> messageOf lines = [""]
          /\ (String.length (Topic n) <= 255)%nat).
Proof.
  rewrite parse_unfold.
  destruct (cleanHead (headerOf lines)) as [|topic rest] eqn:Hclean;
    [discriminate|].
  destruct (messageOf lines) as [|line body] eqn:Hbody; [discriminate|].
  intros [= <-]. cbn [Topic Message].
  assert (Hin : In topic (cleanHead (headerOf lines)))
    by (rewrite Hclean; now left).
  apply cleanHead_In in Hin as (Hin & Hne & Hc).
  assert (Hmsg : Join (line :: body) newline = "" <-> line :: body = [""]).
  { rewrite Join_empty. split; [intros [H|H]; [discriminate|exact H]|].
    now right. }
  split; [exact Hne|]. split; [exact Hc|]. split.
  { rewrite headerOf_eq in Hin. clear - Hin.
    induction lines as [|l lines IH]; cbn in Hin; [destruct Hin|].
    destruct (isRule l); [destruct Hin|].
    destruct Hin as [->|Hin]; [now left|right; now apply IH]. }
  split; [exact Hmsg|].
  destruct (validateNotification_spec
              {| Topic := topic; Metadata := Some (parseMetadata rest);
                 Message := Join (line :: body) newline |})
    as (H1 & _ & H3 & _).
  cbn [Topic Message] in H1, H3. split.
  - rewrite H1. exact Hne.
  - rewrite H3, validateTopic_valid, Hmsg. tauto.
Qed.

Lemma parsed_notification_validation_witness :
  parse ["t"; "---"; ""]
  = Ok {| Topic := "t"; Metadata := Some ∅; Message := "" |}
  /\ db.validateNotification
       {| Topic := "t"; Metadata := Some ∅; Message := "" |}
     = Some db.ErrEmptyMessage.
Proof.
  assert (H : parse ["t"; "---"; ""]
              = Ok {| Topic := "t"; Metadata := Some ∅; Message := "" |})
    by reflexivity.
  split; [exact H|].
  apply (proj2 (proj2 (proj2 (proj2 (proj2
           (parsed_notification_validation _ _ H)))))).
  split; [reflexivity|]. cbn. lia.
Defined.

(** X12.  An empty line or a comment line in the header changes nothing:
    [parse] gives the same result with and without it. *)
Theorem parse_ignores_header_comment (pre post : list string)
    (line : string) :
  (forall l, In l pre -> isRule l = false) ->
  line = "" \/ (isComment line = true /\ isRule line = false) ->
  parse (pre ++ line :: post) = parse (pre ++ post).
Proof.
  intros Hpre Hline.
  assert (Hrule : isRule line = false)
    by (destruct Hline as [->|[_ H]]; [reflexivity|exact H]).
  assert (Hclean : cleanHead [line] = []).
  { apply cleanHead_nil. intros l [<-|[]]. tauto. }
  rewrite !parse_unfold, !headerOf_eq, !messageOf_eq.
  destruct (spec_header_app pre (line :: post) Hpre) as [-> ->].
  destruct (spec_header_app pre post Hpre) as [-> ->].
  change (line :: post) with ([line] ++ post)%list.
  assert (Hl : forall l, In l [line] -> isRule l = false)
    by (intros l [<-|[]]; exact Hrule).
  destruct (spec_header_app [line] post Hl) as [-> ->].
  rewrite !cleanHead_app, Hclean. reflexivity.
Qed.

Lemma parse_ignores_header_comment_witness :
  parse (["topic"] ++ "-- a note" :: ["k: v"; "---"; "body"])
  = parse (["topic"] ++ ["k: v"; "---"; "body"]).
Proof.
  apply (parse_ignores_header_comment ["topic"] ["k: v"; "---"; "body"]
           "-- a note").
  - intros l [<-|[]]. reflexivity.
  - right. split; reflexivity.
Defined.

Lemma parse_layout (topic sep : string) (header body : list string) :
  topic <> "" -> isComment topic = false ->
  (forall l, In l header -> isRule l = false) ->
  isRule sep = true ->
  body <> [] -> (forall l, In l body -> isRule l = false) ->
  parse (topic :: header ++ sep :: body)
  = Ok {| Topic := topic;
          Metadata := Some (parseMetadata (cleanHead header));
          Message := Join body newline |}.
Proof.
  intros Hne Hc Hheader Hsep Hbody Hnorule.
  assert (Htopic : isRule topic = false).
  { destruct (isRule topic) eqn:Hr; [|reflexivity].
    apply isRule_prefix in Hr as [rest ->]. discriminate Hc. }
  assert (Hpre : forall l, In l (topic :: header) -> isRule l = false)
    by (intros l [<-|Hl]; [exact Htopic|now apply Hheader]).
  rewrite parse_unfold, headerOf_eq, messageOf_eq.
  change (topic :: header ++ sep :: body)
    with ((topic :: header) ++ sep :: body)%list.
  destruct (spec_header_app (topic :: header) (sep :: body) Hpre) as [-> ->].
  unfold spec_body. cbn [spec_header spec_from_separator tl]. rewrite Hsep.
  cbn [tl]. rewrite List.app_nil_r.
  assert (Hkeep : List.filter notRule body = body).
  { clear Hbody. induction body as [|l body IH]; cbn; [reflexivity|].
    unfold notRule at 1. rewrite (Hnorule l (or_introl eq_refl)). cbn.
    rewrite IH; [reflexivity|]. intros l' Hl'. apply Hnorule. now right. }
  rewrite Hkeep.
  assert (Hhead : cleanHead (topic :: header) = topic :: cleanHead header).
  { unfold cleanHead. cbn. rewrite Hc.
    destruct (String.eqb_spec topic ""); [contradiction|reflexivity]. }
  rewrite Hhead. destruct body; [contradiction|reflexivity].
Qed.

(** X13.  A file laid out as expected: a topic line that is not empty and not a
    comment, header lines, a separator line, and at least one body line,
    none of the header and body lines starting with three dashes.  The
    parse succeeds with that topic, the metadata of the header lines that
    are kept, and the body lines joined by line feeds. *)
Theorem parse_well_formed (topic sep : string) (header body : list string) :
  topic <> "" -> isComment topic = false ->
  (forall l, In l header -> isRule l = false) ->
  isRule sep = true ->
  body <> [] -> (forall l, In l body -> isRule l = false) ->
  parse (topic :: header ++ sep :: body)
  = Ok {| Topic := topic;
          Metadata := Some (parseMetadata (cleanHead header));
          Message := Join body newline |}.
Proof. apply parse_layout. Qed.

Lemma parse_well_formed_witness :
  parse ("System Updates" :: ["Priority: High"; ""] ++ "-----" :: ["down"; "up"])
  = Ok {| Topic := "System Updates";
          Metadata := Some (parseMetadata (cleanHead ["Priority: High"; ""]));
          Message := Join ["down"; "up"] newline |}.
Proof.
  apply (parse_well_formed "System Updates" "-----" ["Priority: High"; ""]
           ["down"; "up"]).
  - discriminate.
  - reflexivity.
  - intros l [<-|[<-|[]]]; reflexivity.
  - reflexivity.
  - discriminate.
  - intros l [<-|[<-|[]]]; reflexivity.
Defined.

End ParserMore.

(** ** Reading a file *)

Section Files.
Import Strings exchange.

Lemma Split_cons (s : string) (sep : ascii) :
  exists first others, Split s sep = first :: others.
Proof.
  destruct s as [|c rest]; cbn; [eauto|].
  destruct (Ascii.eqb c sep); [eauto|].
  destruct (Split rest sep); eauto.
Qed.

Lemma Join_cons (x : string) (elems : list string) (sep : string) :
  elems <> [] -> Join (x :: elems) sep = x ++ sep ++ Join elems sep.
Proof. destruct elems; [contradiction|reflexivity]. Qed.

Lemma Join_Split (s : string) (sep : ascii) :
  Join (Split s sep) (String sep "") = s.
Proof.
  induction s as [|c rest IH]; cbn [Split]; [reflexivity|].
  destruct (Ascii.eqb_spec c sep) as [->|Hne].
  - destruct (Split_cons rest sep) as (f & o & Hs). rewrite Hs in *.
    rewrite Join_cons by discriminate. now rewrite IH.
  - destruct (Split_cons rest sep) as (f & o & Hs). rewrite Hs in *.
    destruct o as [|y o]; cbn in *; now rewrite <- IH.
Qed.

Lemma Split_no_sep (s : string) (sep : ascii) :
  Forall (fun x => ~ In sep (list_ascii_of_string x)) (Split s sep).
Proof.
  induction s as [|c rest IH]; cbn [Split].
  - constructor; [intros []|constructor].
  - destruct (Ascii.eqb_spec c sep) as [->|Hne].
    + constructor; [intros []|exact IH].
    + destruct (Split rest sep) as [|f o].
      * constructor; [|constructor]. cbn. intros [?|[]]. congruence.
      * inversion IH as [|? ? Hf Ho]; subst. constructor; [|exact Ho].
        cbn. intros [?|?]; [congruence|tauto].
Qed.

Lemma Split_plain (x : string) (sep : ascii) :
  ~ In sep (list_ascii_of_string x) -> Split x sep = [x].
Proof.
  induction x as [|c x IH]; cbn; [reflexivity|]. intros Hnot.
  destruct (Ascii.eqb_spec c sep) as [->|Hne]; [tauto|].
  rewrite IH; [reflexivity|tauto].
Qed.

Lemma Split_app (a b : string) (sep : ascii) :
  Split (a ++ String sep b) sep = (Split a sep ++ Split b sep)%list.
Proof.
  induction a as [|c a IH].
  - change ("" ++ String sep b) with (String sep b). cbn [Split].
    now rewrite Ascii.eqb_refl.
  - change (String c a ++ String sep b) with (String c (a ++ String sep b)).
    cbn [Split]. destruct (Ascii.eqb c sep); [now rewrite IH|].
    rewrite IH. destruct (Split_cons a sep) as (f & o & ->). reflexivity.
Qed.

Lemma Split_Join (sep : ascii) (elems : list string) :
  elems <> [] ->
  Forall (fun x => ~ In sep (list_ascii_of_string x)) elems ->
  Split (Join elems (String sep "")) sep = elems.
Proof.
  induction elems as [|x elems IH]; [contradiction|]. intros _ Hall.
  inversion Hall as [|? ? Hx Hrest]; subst.
  destruct elems as [|y elems].
  - cbn. now apply Split_plain.
  - rewrite Join_cons by discriminate.
    change (x ++ String sep "" ++ Join (y :: elems) (String sep ""))
      with (x ++ String sep (Join (y :: elems) (String sep ""))).
    rewrite Split_app, (Split_plain x sep Hx), IH;
      [reflexivity|discriminate|exact Hrest].
Qed.

(** Split and Join undo each other: joining the pieces of a string gives
    the string back, no piece holds the separator, and the pieces of a
    joined list are the list, as long as the list is not empty and none of
    its strings holds the separator. *)
Theorem Split_Join_inverse (sep : ascii) :
  (forall s, Join (Split s sep) (String sep "") = s)
  /\ (forall s, Split s sep <> []
                /\ Forall (fun x => ~ In sep (list_ascii_of_string x))
                     (Split s sep))
  /\ (forall elems,
        elems <> [] ->
        Forall (fun x => ~ In sep (list_ascii_of_string x)) elems ->
        Split (Join elems (String sep "")) sep = elems).
Proof.
  split; [intros s; apply Join_Split|]. split.
  - intros s. split; [|apply Split_no_sep].
    destruct (Split_cons s sep) as (f & o & ->). discriminate.
  - apply Split_Join.
Qed.

Lemma Split_Join_inverse_witness :
  Split (Join ["topic"; "---"; "body"] newline) (ascii_of_nat 10)
  = ["topic"; "---"; "body"].
Proof.
  apply (proj2 (proj2 (Split_Join_inverse (ascii_of_nat 10)))).
  - discriminate.
  - repeat constructor; cbn; intros H;
      repeat (destruct H as [H|H]; [discriminate H|]); exact H.
Defined.

(** *** The retry loop *)

Lemma readAttempts_first (read : nat -> readOutcome) (k : nat)
    (content : string) :
  read k = ReadData content -> content <> "" ->
  forall left attempt last,
    (attempt <= k < attempt + left)%nat ->
    (forall j, (attempt <= j < k)%nat -> retried (read j)) ->
    readAttempts read attempt left last = ReadData content.
Proof.
  intros Hk Hne. induction left as [|left IH]; intros attempt last Hrange Hre;
    [lia|].
  cbn [readAttempts].
  destruct (Nat.eq_dec attempt k) as [->|Hlt].
  - rewrite Hk. destruct content; [contradiction|reflexivity].
  - assert (Hr : retried (read attempt)) by (apply Hre; lia).
    assert (Hnext : forall last', readAttempts read (S attempt) left last'
                                  = ReadData content)
      by (intros last'; apply IH; [lia|intros j Hj; apply Hre; lia]).
    destruct (read attempt) as [err|c]; [apply Hnext|].
    cbn in Hr. subst c. apply Hnext.
Qed.

Lemma readAttempts_all (read : nat -> readOutcome) :
  forall left attempt last,
    (forall j, (attempt <= j < attempt + left)%nat -> retried (read j)) ->
    readAttempts read attempt left last
    = match left with
      | O => last
      | S _ => read (attempt + left - 1)%nat
      end.
Proof.
  induction left as [|left IH]; intros attempt last Hre; [reflexivity|].
  cbn [readAttempts].
  assert (Hr : retried (read attempt)) by (apply Hre; lia).
  assert (Hnext : forall last',
            readAttempts read (S attempt) left last'
            = match left with
              | O => last'
              | S _ => read (attempt + S left - 1)%nat
              end).
  { intros last'. rewrite IH by (intros j Hj; apply Hre; lia).
    destruct left; [reflexivity|]. f_equal. lia. }
  destruct (read attempt) as [err|c] eqn:Ha.
  - rewrite Hnext. destruct left; [|reflexivity].
    replace (attempt + 1 - 1)%nat with attempt by lia. now rewrite Ha.
  - cbn in Hr. subst c. cbn. rewrite Hnext. destruct left; [|reflexivity].
    replace (attempt + 1 - 1)%nat with attempt by lia. now rewrite Ha.
Qed.

(** X14.  ReadFile stops at the first of its five reads that gives bytes
    without error: the reads before it, failed or empty, are forgotten,
    the bytes are cut into lines at the line feeds and parsed, and the
    notification is stored in the process on success only. *)
Theorem ReadFile_first_good_read (read : string -> nat -> readOutcome)
    (p : Process) (k : nat) (content : string) :
  (1 <= k <= 5)%nat ->
  (forall j, (1 <= j < k)%nat -> retried (read (Filepath p) j)) ->
  read (Filepath p) k = ReadData content -> content <> "" ->
  ReadFile read p = afterRead p (Split content (ascii_of_nat 10)).
Proof.
  intros Hk Hre Hread Hne. unfold ReadFile, afterRead.
  rewrite (readAttempts_first (read (Filepath p)) k content Hread Hne);
    [|unfold READ_FILE_MAX_ATTEMPTS; lia|exact Hre].
  destruct content; [contradiction|reflexivity].
Qed.

Lemma ReadFile_first_good_read_witness :
  ReadFile late_file (mkProcess "f" None)
  = (None,
     mkProcess "f"
       (Some {| Topic := "t"; Metadata := Some ∅; Message := "m" |})).
Proof.
  apply (ReadFile_first_good_read late_file (mkProcess "f" None) 3
           (Join ["t"; "---"; "m"] newline)).
  - lia.
  - intros j Hj. assert (j = 1 \/ j = 2)%nat as [-> | ->] by lia; cbn; auto.
  - reflexivity.
  - discriminate.
Defined.

(** X15.  When each of the five reads fails or gives no byte, ReadFile gives
    up: its error is the error of the fifth read, or the empty-content
    error when the fifth read gave no byte, whatever the first four reads
    were, and the process is left as it was. *)
Theorem ReadFile_gives_up (read : string -> nat -> readOutcome)
    (p : Process) :
  (forall j, (1 <= j <= 5)%nat -> retried (read (Filepath p) j)) ->
  ReadFile read p
  = (Some match read (Filepath p) 5 with
          | ReadFailed err => ErrRead err
          | ReadData _ => ErrEmptyContent
          end,
     p).
Proof.
  intros Hre. unfold ReadFile, READ_FILE_MAX_ATTEMPTS.
  rewrite readAttempts_all by (intros j Hj; apply Hre; lia).
  cbn [Nat.add Nat.sub].
  specialize (Hre 5%nat ltac:(lia)).
  destruct (read (Filepath p) 5) as [err|c]; [reflexivity|].
  cbn in Hre. now subst c.
Qed.

Lemma ReadFile_gives_up_witness :
  ReadFile busy_file (mkProcess "f" None)
  = (Some ErrEmptyContent, mkProcess "f" None).
Proof.
  apply (ReadFile_gives_up busy_file (mkProcess "f" None)).
  intros j Hj.
  assert (j = 1 \/ j = 2 \/ j = 3 \/ j = 4 \/ j = 5)%nat
    as [-> | [-> | [-> | [-> | ->]]]] by lia; cbn; auto.
Defined.

(** X16.  From the bytes to the notification.  A file made of a topic line,
    header lines and a separator line, each ended by a line feed, and then
    any text whose lines do not start with three dashes: when the first
    read gives it, ReadFile stores the notification with that topic, the
    metadata of the header lines, and the text after the separator line
    byte for byte as message, a final line feed included. *)
Theorem ReadFile_message_verbatim (read : string -> nat -> readOutcome)
    (p : Process) (topic sep text : string) (header : list string) :
  topic <> "" -> isComment topic = false ->
  (forall l, In l header -> isRule l = false) ->
  isRule sep = true ->
  Forall (fun x => ~ In (ascii_of_nat 10) (list_ascii_of_string x))
    (topic :: header ++ [sep]) ->
  (forall l, In l (Split text (ascii_of_nat 10)) -> isRule l = false) ->
  read (Filepath p) 1%nat
  = ReadData (Join (topic :: header ++ [sep]) newline ++ newline ++ text) ->
  ReadFile read p
  = (None,
     mkProcess (Filepath p)
       (Some {| Topic := topic;
                Metadata := Some (parseMetadata (cleanHead header));
                Message := text |})).
Proof.
  intros Hne Hc Hheader Hsep Hplain Htext Hread.
  unfold ReadFile, READ_FILE_MAX_ATTEMPTS. unfold newline in *.
  set (lf := ascii_of_nat 10) in *.
  set (content := Join (topic :: header ++ [sep]) (String lf "")
                  ++ String lf "" ++ text) in *.
  assert (Hcontent : content <> "").
  { unfold content. destruct header; cbn; destruct topic;
      try contradiction; discriminate. }
  rewrite (readAttempts_first (read (Filepath p)) 1 _ Hread Hcontent);
    [|lia|intros j Hj; lia].
  assert (Hlines : Split content lf
                   = topic :: header ++ sep :: Split text lf).
  { unfold content.
    change (Join (topic :: header ++ [sep]) (String lf "")
            ++ String lf "" ++ text)
      with (Join (topic :: header ++ [sep]) (String lf "")
            ++ String lf text).
    rewrite Split_app.
    rewrite (Split_Join lf (topic :: header ++ [sep]))
      by (try discriminate; exact Hplain).
    cbn [List.app]. now rewrite <- List.app_assoc. }
  rewrite Hlines.
  rewrite (parse_layout topic sep header (Split text lf) Hne Hc Hheader Hsep);
    [|destruct (Split_cons text lf) as (f & o & ->); discriminate
     |exact Htext].
  rewrite Join_Split.
  destruct content; [contradiction|reflexivity].
Qed.

Lemma ReadFile_message_verbatim_witness :
  ReadFile
    (fun _ _ =>
       ReadData (Join ("t" :: ["k: v"] ++ ["---"]) newline ++ newline
                 ++ "hello" ++ newline))
    (mkProcess "f" None)
  = (None,
     mkProcess "f"
       (Some {| Topic := "t";
                Metadata := Some (parseMetadata (cleanHead ["k: v"]));
                Message := "hello" ++ newline |})).
Proof.
  apply (ReadFile_message_verbatim _ (mkProcess "f" None) "t" "---"
           ("hello" ++ newline) ["k: v"]).
  - discriminate.
  - reflexivity.
  - intros l [<-|[]]. reflexivity.
  - reflexivity.
  - repeat constructor; cbn; intros H;
      repeat (destruct H as [H|H]; [discriminate H|]); exact H.
  - intros l [<-|[<-|[]]]; reflexivity.
  - reflexivity.
Defined.

End Files.

(** ** Trimming *)

Section Trim.
Import Strings exchange.

Variable p2 : ascii -> ascii -> bool.
Variable p3 : ascii -> ascii -> ascii -> bool.

Lemma trimLeading_unfold (s : string) :
  trimLeading p2 p3 s
  = match s with
    | EmptyString => s
    | String c1 r1 =>
        if asciiSpace c1 then trimLeading p2 p3 r1
        else
          match r1 with
          | EmptyString => s
          | String c2 r2 =>
              if p2 c1 c2 then trimLeading p2 p3 r2
              else
                match r2 with
                | EmptyString => s
                | String c3 r3 =>
                    if p3 c1 c2 c3 then trimLeading p2 p3 r3 else s
                end
          end
    end.
Proof. destruct s; reflexivity. Qed.

Lemma trimLeading_fixed (s : string) :
  leadsSpace p2 p3 s = false -> trimLeading p2 p3 s = s.
Proof.
  intros H. rewrite trimLeading_unfold. unfold leadsSpace in H.
  destruct s as [|c1 r1]; [reflexivity|].
  destruct (asciiSpace c1); [discriminate|].
  destruct r1 as [|c2 r2]; [reflexivity|].
  destruct (p2 c1 c2); [discriminate|].
  destruct r2 as [|c3 r3]; [reflexivity|].
  destruct (p3 c1 c2 c3); [discriminate|reflexivity].
Qed.

Lemma trimLeading_result (n : nat) :
  forall s, (String.length s <= n)%nat ->
    leadsSpace p2 p3 (trimLeading p2 p3 s) = false
    /\ exists pre, s = pre ++ trimLeading p2 p3 s.
Proof.
  induction n as [|n IH]; intros s Hlen.
  - destruct s; [|cbn in Hlen; lia]. split; [reflexivity|now exists ""].
  - rewrite trimLeading_unfold.
    destruct s as [|c1 r1]; [split; [reflexivity|now exists ""]|].
    cbn in Hlen.
    destruct (asciiSpace c1) eqn:H1.
    { destruct (IH r1 ltac:(lia)) as [Hl [pre Hpre]]. split; [exact Hl|].
      exists (String c1 pre). exact (f_equal (String c1) Hpre). }
    destruct r1 as [|c2 r2].
    { split; [cbn; now rewrite H1|now exists ""]. }
    cbn in Hlen.
    destruct (p2 c1 c2) eqn:H2.
    { destruct (IH r2 ltac:(lia)) as [Hl [pre Hpre]]. split; [exact Hl|].
      exists (String c1 (String c2 pre)).
      exact (f_equal (fun t => String c1 (String c2 t)) Hpre). }
    destruct r2 as [|c3 r3].
    { split; [cbn; now rewrite H1, H2|now exists ""]. }
    cbn in Hlen.
    destruct (p3 c1 c2 c3) eqn:H3.
    { destruct (IH r3 ltac:(lia)) as [Hl [pre Hpre]]. split; [exact Hl|].
      exists (String c1 (String c2 (String c3 pre))).
      exact (f_equal (fun t => String c1 (String c2 (String c3 t))) Hpre). }
    split; [cbn; now rewrite H1, H2, H3|now exists ""].
Qed.

Lemma trimLeading_idempotent (s : string) :
  trimLeading p2 p3 (trimLeading p2 p3 s) = trimLeading p2 p3 s.
Proof.
  apply trimLeading_fixed.
  now apply (trimLeading_result (String.length s) s).
Qed.

Lemma leadsSpace_app (a b : string) :
  leadsSpace p2 p3 a = true -> leadsSpace p2 p3 (a ++ b) = true.
Proof.
  destruct a as [|c1 [|c2 [|c3 r]]]; cbv [String.append]; fold String.append;
    cbn [leadsSpace]; try discriminate.
  - rewrite !orb_false_r. intros ->. reflexivity.
  - rewrite !orb_false_r. intros H. apply orb_true_iff in H as [-> | ->].
    + reflexivity.
    + rewrite orb_true_l. apply orb_true_r.
  - intros ->. reflexivity.
Qed.

End Trim.

Section TrimSpace.
Import Strings exchange.

Lemma list_ascii_app (a b : string) :
  list_ascii_of_string (a ++ b)
  = (list_ascii_of_string a ++ list_ascii_of_string b)%list.
Proof.
  induction a as [|c a IH]; [reflexivity|].
  change (String c a ++ b) with (String c (a ++ b)). cbn. now rewrite IH.
Qed.

Lemma string_of_list_app (l1 l2 : list ascii) :
  string_of_list_ascii (l1 ++ l2)
  = string_of_list_ascii l1 ++ string_of_list_ascii l2.
Proof.
  induction l1 as [|c l1 IH]; [reflexivity|]. cbn [List.app string_of_list_ascii].
  rewrite IH. reflexivity.
Qed.

Lemma revString_involutive (s : string) : revString (revString s) = s.
Proof.
  unfold revString.
  now rewrite list_ascii_of_string_of_list_ascii, List.rev_involutive,
    string_of_list_ascii_of_string.
Qed.

Lemma revString_app (a b : string) :
  revString (a ++ b) = revString b ++ revString a.
Proof.
  unfold revString.
  now rewrite list_ascii_app, List.rev_app_distr, string_of_list_app.
Qed.

Lemma TrimRightSpace_prefix (s : string) :
  exists rest, s = TrimRightSpace s ++ rest.
Proof.
  unfold TrimRightSpace.
  destruct (trimLeading_result (fun a b => isSpace2 b a)
              (fun a b c => isSpace3 c b a)
              (String.length (revString s)) (revString s) (le_n _))
    as [_ [pre Hpre]].
  exists (revString pre).
  rewrite <- revString_app, <- Hpre. now rewrite revString_involutive.
Qed.

(** TrimSpace gives a string that it leaves as it is: what is trimmed
    has no white space left at either end. *)
Lemma TrimSpace_idempotent (s : string) :
  TrimSpace (TrimSpace s) = TrimSpace s.
Proof.
  unfold TrimSpace.
  set (x := TrimLeftSpace s).
  assert (Hx : leadsSpace isSpace2 isSpace3 x = false)
    by (apply (trimLeading_result isSpace2 isSpace3 (String.length s) s);
        reflexivity).
  assert (Hy : leadsSpace isSpace2 isSpace3 (TrimRightSpace x) = false).
  { destruct (TrimRightSpace_prefix x) as [rest Hrest].
    destruct (leadsSpace isSpace2 isSpace3 (TrimRightSpace x)) eqn:Hl;
      [|reflexivity].
    apply (leadsSpace_app isSpace2 isSpace3 _ rest) in Hl.
    rewrite <- Hrest in Hl. congruence. }
  unfold TrimLeftSpace at 1. rewrite (trimLeading_fixed _ _ _ Hy).
  unfold TrimRightSpace. rewrite revString_involutive.
  now rewrite trimLeading_idempotent.
Qed.

(** X17.  The keys and the values of the metadata are trimmed: no key and no
    value of the map starts or ends with white space, so that trimming
    one again gives it back. *)
Theorem parseMetadata_trimmed (lines : list string) (k v : string) :
  parseMetadata lines !! k = Some v ->
  TrimSpace k = k /\ TrimSpace v = v.
Proof.
  intros H. apply parseMetadata_lookup in H as (_ & line & _ & _ & Hp & _).
  rewrite pairOf_Cut in Hp.
  destruct (Cut line ":") as [[l r]|]; [|discriminate].
  destruct (String.eqb l "" || String.eqb r ""); [discriminate|].
  inversion Hp; subst. split; apply TrimSpace_idempotent.
Qed.

Lemma parseMetadata_trimmed_witness :
  TrimSpace "Date" = "Date" /\ TrimSpace "2024-11-29" = "2024-11-29".
Proof.
  apply (parseMetadata_trimmed ["  Date :  2024-11-29  "]).
  vm_compute. reflexivity.
Defined.

End TrimSpace.
